(** * GPHS441 plate rotation functions: a shallow embedding and its properties

    The development follows [GPHS441_plates.py].  NumPy's float64 numbers are
    idealised as the real numbers of the Standard Library: every arithmetic
    operation is exact, so a property the program has "within floating-point
    tolerance" is stated here as an equality of reals.  Two things that the
    floating-point program does and the reals do not have are kept explicit:

    - an exception ([ValueError], [IndexError]) is an outcome [Raise];
    - an array of NaN, which the program produces whenever it divides 0 by 0
      or takes the arc cosine of a number outside [-1, 1], is the outcome
      [AllNaN].

    A one-dimensional array is a [list R], a two-dimensional array is the list
    of its rows.

    The idealisation leaves rounding, overflow and underflow out, and a run of
    the program departs from it in three places that matter below:

    - [cos (np.radians 90)] is 0 here, while the float64 cosine of the float64
      nearest to pi/2 is about 6.1e-17, so at latitude 90 or -90 the position
      vector is exactly on the z axis here and only nearly so in a run;
    - [length] squares the components, and the square of a float64 below
      about 1.5e-162 is 0: the module [binary64] has [length] and the first
      lines of [lonlat] on float64 itself, for the vectors of the z axis;
    - the trace of a rotation matrix whose angle is within about 3e-8 of pi
      can round below -1, and [hVector] then takes the arc cosine of a number
      outside [-1, 1]: what is proved here of [hVector] after
      [rotationMatrix] near that angle is a statement of exact arithmetic. *)

From Stdlib Require Import Reals Lra Lia List String Ascii ZArith Bool.
From Stdlib Require Import RNsatz.
From Stdlib Require Floats.
Import ListNotations.

Local Open Scope R_scope.

(** ** Outcomes of a call *)

Inductive exn : Type :=
| ValueError (msg : string)
| IndexError.

Inductive result (A : Type) : Type :=
| Ok (a : A)
| Raise (e : exn)
| AllNaN.

Arguments Ok {A} a.
Arguments Raise {A} e.
Arguments AllNaN {A}.

Definition bind {A B : Type} (m : result A) (f : A -> result B) : result B :=
  match m with
  | Ok a => f a
  | Raise e => Raise e
  | AllNaN => AllNaN
  end.

Notation "x <- m ;; k" := (bind m (fun x => k))
  (at level 61, m at next level, right associativity).

Definition vec := list R.
Definition matrix := list (list R).

(** ** The NumPy operations the module uses *)

Module np.

(** [np.shape] of a one-dimensional array, and of a two-dimensional one. *)
Definition shape (v : vec) : list nat := [List.length v].

Definition shape_ne (s t : list nat) : bool :=
  if list_eq_dec Nat.eq_dec s t then false else true.

(** [a.dot(b)] of two vectors. *)
Fixpoint dot (a b : vec) : R :=
  match a, b with
  | x :: a', y :: b' => x * y + dot a' b'
  | _, _ => 0
  end.

Definition radians (x : R) : R := x * PI / 180.
Definition degrees (x : R) : R := x * 180 / PI.

Definition sign (x : R) : R :=
  match total_order_T x 0 with
  | inleft (left _) => -1
  | inleft (right _) => 0
  | inright _ => 1
  end.

(** [np.mod]: the remainder that goes with floor division, with the sign of
    the divisor. *)
Definition mod_ (a n : R) : R := a - n * IZR (Zfloor (a / n)).

(** Indexing: [v[i]] and [A[i,j]]. *)
Definition item (v : vec) (i : nat) : result R :=
  match nth_error v i with
  | Some x => Ok x
  | None => Raise IndexError
  end.

Definition item2 (A : matrix) (i j : nat) : result R :=
  match nth_error A i with
  | Some row => item row j
  | None => Raise IndexError
  end.

Definition row_of (n i : nat) : vec :=
  map (fun j => if Nat.eqb i j then 1 else 0) (seq 0 n).

Definition identity (n : nat) : matrix :=
  map (row_of n) (seq 0 n).

(** Scalar times array, array over scalar, sum of arrays, negation. *)
Definition vscale (c : R) (v : vec) : vec := map (Rmult c) v.
Definition vdiv (v : vec) (c : R) : vec := map (fun x => x / c) v.
Definition vneg (v : vec) : vec := map Ropp v.
Definition mscale (c : R) (A : matrix) : matrix := map (vscale c) A.

Fixpoint vadd (a b : vec) : vec :=
  match a, b with
  | x :: a', y :: b' => (x + y) :: vadd a' b'
  | _, _ => []
  end.

Fixpoint madd (A B : matrix) : matrix :=
  match A, B with
  | r :: A', s :: B' => vadd r s :: madd A' B'
  | _, _ => []
  end.

(** Column [j] of a matrix, the transpose, and [np.dot] of two matrices and
    of a matrix and a vector. *)
Definition col (j : nat) (A : matrix) : vec := map (fun r => nth j r 0) A.
Definition ncols (A : matrix) : nat := List.length (hd [] A).
Definition transpose (A : matrix) : matrix :=
  map (fun j => col j A) (seq 0 (ncols A)).
Definition matmul (A B : matrix) : matrix :=
  map (fun r => map (fun j => dot r (col j B)) (seq 0 (ncols B))) A.
Definition matvec (A : matrix) (v : vec) : vec := map (fun r => dot r v) A.

Fixpoint diagonal (i : nat) (A : matrix) : vec :=
  match A with
  | [] => []
  | r :: A' =>
      match nth_error r i with
      | Some x => x :: diagonal (S i) A'
      | None => []
      end
  end.

Definition trace (A : matrix) : R := fold_right Rplus 0 (diagonal 0 A).

(** [np.cross] of two 3-vectors. *)
Definition cross (a b : vec) : vec :=
  match a, b with
  | [a0; a1; a2], [b0; b1; b2] =>
      [a1 * b2 - a2 * b1; a2 * b0 - a0 * b2; a0 * b1 - a1 * b0]
  | _, _ => []
  end.

End np.

Declare Scope np_scope.
Delimit Scope np_scope with np.
Infix "+m" := np.madd (at level 50, left associativity) : np_scope.
Infix "*m" := np.mscale (at level 40, left associativity) : np_scope.

(** ** The functions of [GPHS441_plates.py] *)

Definition rEarth : R := 6371.

Definition length (vector : vec) : R :=
  let v := vector in
  sqrt (np.dot v v).

Definition positionVector (lonlat : vec) : result vec :=
  lon0 <- np.item lonlat 0 ;;
  lat0 <- np.item lonlat 1 ;;
  let lon := np.radians lon0 in
  let lat := np.radians lat0 in
  let x := cos lon * cos lat in
  let y := sin lon * cos lat in
  let z := sin lat in
  Ok [x; y; z].

(** Dividing the three components by a zero length is 0/0 three times, and the
    NaN goes through every later operation: the result is [AllNaN]. *)
Definition lonlat (vector : vec) : result vec :=
  let v := vector in
  if np.shape_ne (np.shape v) [3%nat] then
    Raise (ValueError "lonlat(): expects 3-vector")
  else
    let L := length v in
    if Req_dec_T L 0 then AllNaN else
    let x := nth 0 v 0 / L in
    let y := nth 1 v 0 / L in
    let z := nth 2 v 0 / L in
    let lat := np.degrees (asin z) in
    let lon :=
      if Req_dec_T x 0 then np.sign y * 90
      else if Rgt_dec x 0 then np.degrees (atan (y / x))
      else if Req_dec_T y 0 then 180 + np.degrees (atan (y / x))
      else np.sign y * 180 + np.degrees (atan (y / x)) in
    let lon := np.mod_ lon 360 in
    Ok [lon; lat].

Definition M (h : vec) : result matrix :=
  if np.shape_ne (np.shape h) [3%nat] then
    Raise (ValueError "M(h): expects 3-vector h")
  else
    let h0 := nth 0 h 0 in
    let h1 := nth 1 h 0 in
    let h2 := nth 2 h 0 in
    Ok [[ 0   ; - h2;   h1];
        [ h2  ;  0  ; - h0];
        [- h1 ;  h0 ;   0 ]].

Definition rotationMatrix (h : vec) : result matrix :=
  if np.shape_ne (np.shape h) [3%nat] then
    Raise (ValueError "rotationMatrix(h): expects 3-vector h")
  else
    let angle := length h in
    let I := np.identity 3 in
    if Req_dec_T angle 0 then Ok I
    else
      let polePositionVector := np.vdiv h angle in
      P <- M polePositionVector ;;
      Ok (I +m sin angle *m P +m (1 - cos angle) *m np.matmul P P)%np.

(** The arc cosine of a number outside [-1, 1] is NaN, and so is each
    component of a zero vector divided by its zero length; either makes every
    component of the product [angle * pole] NaN. *)
Definition hVector (R : matrix) : result vec :=
  let c := (np.trace R - 1) / 2 in
  R21 <- np.item2 R 2 1 ;;
  R12 <- np.item2 R 1 2 ;;
  R02 <- np.item2 R 0 2 ;;
  R20 <- np.item2 R 2 0 ;;
  R10 <- np.item2 R 1 0 ;;
  R01 <- np.item2 R 0 1 ;;
  let v := [R21 - R12; R02 - R20; R10 - R01] in
  if Rlt_dec c (-1) then AllNaN
  else if Rlt_dec 1 c then AllNaN
  else if Req_dec_T (length v) 0 then AllNaN
  else
    let angle := acos c in
    let pole := np.vdiv v (length v) in
    Ok (np.vscale angle pole).

(** ** The first lines of [lonlat] on float64 *)

(** [length] and the normalisation and branch tests of [lonlat], lines 69 to
    85, on the kernel's binary64 numbers: multiplication, addition, square
    root, division and comparison are the IEEE 754 operations NumPy uses.
    The arc tangent is not among them, so the model stops at the choice of
    the branch and at the first term of the longitude. *)
Module binary64.

Import PrimFloat.

(** [v.dot(v)], summed from the first product to the last. *)
Definition dot (a b : list float) : float :=
  fold_left (fun acc p => add acc (mul (fst p) (snd p))) (combine a b) zero.

Definition length (vector : list float) : float :=
  let v := vector in
  sqrt (dot v v).

(** [np.sign]: NaN for NaN. *)
Definition sign (x : float) : float :=
  if ltb zero x then one
  else if ltb x zero then opp one
  else if eqb x zero then zero
  else x.

(** The normalised components [x], [y], [z] of lines 70 to 72. *)
Definition normalised (v : list float) : list float :=
  map (fun a => div a (length v)) v.

Inductive branch : Type :=
| x_is_zero
| x_is_positive
| y_is_zero
| otherwise.

(** Which of the four branches of lines 78 to 85 a 3-vector takes. *)
Definition lonlat_branch (v : list float) : branch :=
  let x := nth 0 (normalised v) zero in
  let y := nth 1 (normalised v) zero in
  if eqb x zero then x_is_zero
  else if ltb zero x then x_is_positive
  else if eqb y zero then y_is_zero
  else otherwise.

(** The first term of the longitude in the last branch,
    [np.sign(y) * 180.]. *)
Definition last_branch_first_term (v : list float) : float :=
  mul (sign (nth 1 (normalised v) zero)) 180%float.

(** The longitude of the first branch, [np.sign(y) * 90.], before the
    remainder modulo 360 is taken. *)
Definition first_branch_lon (v : list float) : float :=
  mul (sign (nth 1 (normalised v) zero)) 90%float.

(** 2 to the power -600, about 2.4e-181. *)
Definition tiny : float := 0x1p-600%float.

End binary64.

(** ** Reading a multi-segment xy file *)

Module str.

(** The characters [str.strip] and [str.split] take for white space, among
    the ASCII ones: tab to carriage return, the four separators, space. *)
Definition isspace (c : ascii) : bool :=
  let n := nat_of_ascii c in
  ((9 <=? n)%nat && (n <=? 13)%nat) || ((28 <=? n)%nat && (n <=? 32)%nat).

Fixpoint lstrip (s : list ascii) : list ascii :=
  match s with
  | c :: s' => if isspace c then lstrip s' else s
  | [] => []
  end.

Definition strip (s : string) : string :=
  string_of_list_ascii
    (rev (lstrip (rev (lstrip (list_ascii_of_string s))))).

(** [cur] is the word being read, last character first. *)
Fixpoint words (cur : list ascii) (s : list ascii) : list string :=
  match s with
  | [] =>
      match cur with
      | [] => []
      | _ => [string_of_list_ascii (rev cur)]
      end
  | c :: s' =>
      if isspace c then
        match cur with
        | [] => words [] s'
        | _ => string_of_list_ascii (rev cur) :: words [] s'
        end
      else words (c :: cur) s'
  end.

(** [s.split()] with no separator given. *)
Definition split (s : string) : list string :=
  words [] (list_ascii_of_string s).

Definition item (w : list string) (i : nat) : result string :=
  match nth_error w i with
  | Some t => Ok t
  | None => Raise IndexError
  end.

End str.

Section ReadGMTxy.

(** Python's [float] of a string: the number, or the ValueError it raises. *)
Variable float : string -> result R.

(** The three lists the loop updates. *)
Record loop_state : Type := mkState {
  feature : list (list (list R));
  x : list R;
  y : list R
}.

(** One turn of [for line in data]. *)
Definition loop_body (st : loop_state) (line : string) : result loop_state :=
  let w := str.split (str.strip line) in
  w0 <- str.item w 0 ;;
  if String.eqb w0 ">" then
    let feature' :=
      match x st with
      | [] => feature st
      | _ => feature st ++ [[x st; y st]]
      end in
    Ok (mkState feature' [] [])
  else
    x0 <- float w0 ;;
    w1 <- str.item w 1 ;;
    y0 <- float w1 ;;
    Ok (mkState (feature st) (x st ++ [x0]) (y st ++ [y0])).

Fixpoint loop (st : loop_state) (data : list string) : result loop_state :=
  match data with
  | [] => Ok st
  | line :: data' => st' <- loop_body st line ;; loop st' data'
  end.

(** [data] is what [f.readlines()] returned. *)
Definition readGMTxy (data : list string) : result (list (list (list R))) :=
  st <- loop (mkState [] [] []) data ;;
  Ok (feature st).

(** A line that the loop takes for a data line and can read. *)
Definition data_line (line : string) : Prop :=
  exists w0 w1 x0 y0,
    str.item (str.split (str.strip line)) 0 = Ok w0 /\
    String.eqb w0 ">" = false /\
    float w0 = Ok x0 /\
    str.item (str.split (str.strip line)) 1 = Ok w1 /\
    float w1 = Ok y0.

End ReadGMTxy.

(** Files made of blocks: a marker line, then the data lines of a segment,
    each given with the pair of numbers that [float] reads on it. *)
Section Blocks.

Variable float : string -> result R.

Definition marker_line (line : string) : Prop :=
  str.item (str.split (str.strip line)) 0 = Ok ">"%string.

Definition reads (line : string) (p : R * R) : Prop :=
  exists w0 w1,
    str.item (str.split (str.strip line)) 0 = Ok w0 /\
    String.eqb w0 ">" = false /\
    float w0 = Ok (fst p) /\
    str.item (str.split (str.strip line)) 1 = Ok w1 /\
    float w1 = Ok (snd p).

Definition block : Type := (string * list (string * (R * R)))%type.

Definition well_formed (b : block) : Prop :=
  marker_line (fst b) /\ Forall (fun lp => reads (fst lp) (snd lp)) (snd b).

Definition block_lines (b : block) : list string :=
  fst b :: map fst (snd b).

Definition file_lines (blocks : list block) : list string :=
  flat_map block_lines blocks.

(** The segment of a list of points, as [readGMTxy] returns it: nothing for
    an empty list. *)
Definition segment (pts : list (R * R)) : list (list (list R)) :=
  match pts with
  | [] => []
  | _ => [[map fst pts; map snd pts]]
  end.

Definition segments (blocks : list block) : list (list (list R)) :=
  flat_map (fun b => segment (map snd (snd b))) blocks.

End Blocks.

(** The two lists of the segment being read have the same length, and the
    segments already collected are not empty and have lists of equal
    length. *)
Definition well_shaped (seg : list (list R)) : Prop :=
  exists xs ys,
    seg = [xs; ys] /\ List.length xs = List.length ys /\ xs <> [].

Definition loop_invariant (st : loop_state) : Prop :=
  List.length (x st) = List.length (y st) /\ Forall well_shaped (feature st).

(** A [float] for the examples: it reads a string of decimal digits, as
    Python's does, and raises ValueError on any other string. *)
Definition digit_of (c : ascii) : option Z :=
  let n := nat_of_ascii c in
  if ((48 <=? n)%nat && (n <=? 57)%nat)%bool then Some (Z.of_nat (n - 48))
  else None.

Fixpoint digits (acc : Z) (s : string) : option Z :=
  match s with
  | EmptyString => Some acc
  | String c s' =>
      match digit_of c with
      | Some k => digits (10 * acc + k) s'
      | None => None
      end
  end.

Definition float_digits (s : string) : result R :=
  match s with
  | EmptyString => Raise (ValueError "could not convert string to float")
  | _ =>
      match digits 0 s with
      | Some z => Ok (IZR z)
      | None => Raise (ValueError "could not convert string to float")
      end
  end.

Definition newline : string := String (ascii_of_nat 10) EmptyString.

(** ** The script [GPHS441-01_exampleAuckland.py] *)

Module example.

(** [np.arccos] of a number: NaN outside [-1, 1]. *)
Definition arccos (d : R) : result R :=
  if Rlt_dec d (-1) then AllNaN
  else if Rlt_dec 1 d then AllNaN
  else Ok (acos d).

(** The two points the script starts from. *)
Definition Auckland : vec := [174.7850; -37.0082].
Definition Wellington : vec := [174.8076; -41.3276].

Definition n : nat := 40.

(** The values the script computes, as functions of its two points, so that
    what is proved of them holds for [Auckland] and [Wellington] and for any
    other pair. *)
Section GreatCircle.

Variables lonlatAuckland lonlatWellington : vec.

Definition pAuckland : result vec := positionVector lonlatAuckland.
Definition pWellington : result vec := positionVector lonlatWellington.

(** A zero sum divided by its zero length is NaN. *)
Definition midpoint : result vec :=
  pA <- pAuckland ;;
  pW <- pWellington ;;
  let sum := np.vadd pA pW in
  if Req_dec_T (length sum) 0 then AllNaN
  else Ok (np.vdiv sum (length sum)).

Definition lonlatMidpoint : result vec :=
  m <- midpoint ;; lonlat m.

Definition angle : result R :=
  pA <- pAuckland ;;
  pW <- pWellington ;;
  arccos (np.dot pA pW).

(** When the sine of the angle is 0 the two unit vectors are parallel, their
    cross product is the zero vector, and the quotient is NaN. *)
Definition pole : result vec :=
  pA <- pAuckland ;;
  pW <- pWellington ;;
  a <- angle ;;
  if Req_dec_T (sin a) 0 then AllNaN
  else Ok (np.vdiv (np.cross pA pW) (sin a)).

Definition ll : result vec :=
  p <- pole ;; lonlat p.

Definition h : result vec :=
  a <- angle ;;
  p <- pole ;;
  Ok (np.vscale a p).

Definition rotatedAuckland : result vec :=
  pA <- pAuckland ;;
  hv <- h ;;
  rotationMatrix <- rotationMatrix hv ;;
  Ok (np.matvec rotationMatrix pA).

(** The body of the loop over [proportion], before [lonlat] is taken. *)
Definition rotated (proportion : R) : result vec :=
  pA <- pAuckland ;;
  hv <- h ;;
  rotationMatrix <- rotationMatrix (np.vscale proportion hv) ;;
  Ok (np.matvec rotationMatrix pA).

Definition hNew : result vec :=
  m <- midpoint ;;
  Ok (np.vscale PI m).

(** The body of the loop over [i] in [range(1, n)]. *)
Definition rotatedPositionVector (i : nat) : result vec :=
  pA <- pAuckland ;;
  hn <- hNew ;;
  rotationMatrix <- rotationMatrix (np.vscale (INR i / INR n) hn) ;;
  Ok (np.matvec rotationMatrix pA).

End GreatCircle.

End example.

(** ** Definitions the statements below use *)

(** The matrix [I + s P + (1 - c) P P] for the skew matrix [P] of [(a, b, d)],
    entry by entry; [rotationMatrix_rodrigues] below shows that it is what
    [rotationMatrix] returns for a vector that is not zero. *)
Definition rodrigues (s c a b d : R) : matrix :=
  [[1 - (1 - c) * (b * b + d * d); (1 - c) * (a * b) - s * d; (1 - c) * (a * d) + s * b];
   [(1 - c) * (a * b) + s * d; 1 - (1 - c) * (a * a + d * d); (1 - c) * (b * d) - s * a];
   [(1 - c) * (a * d) - s * b; (1 - c) * (b * d) + s * a; 1 - (1 - c) * (a * a + b * b)]].

(** The determinant of a 3x3 array, expanded along its first row.  The
    module never computes it; the statement on rotation matrices needs it. *)
Definition det (A : matrix) : R :=
  let e i j := nth j (nth i A []) 0 in
  e 0%nat 0%nat * (e 1%nat 1%nat * e 2%nat 2%nat - e 1%nat 2%nat * e 2%nat 1%nat)
  - e 0%nat 1%nat * (e 1%nat 0%nat * e 2%nat 2%nat - e 1%nat 2%nat * e 2%nat 0%nat)
  + e 0%nat 2%nat * (e 1%nat 0%nat * e 2%nat 1%nat - e 1%nat 1%nat * e 2%nat 0%nat).

(** The four-way choice of the longitude, before the reduction modulo 360. *)
Definition branch_lon (x y : R) : R :=
  if Req_dec_T x 0 then np.sign y * 90
  else if Rgt_dec x 0 then np.degrees (atan (y / x))
  else if Req_dec_T y 0 then 180 + np.degrees (atan (y / x))
  else np.sign y * 180 + np.degrees (atan (y / x)).

(** ** Proof steps shared by the proofs below *)

(** An equation between two arrays written out entry by entry becomes one
    equation of reals per entry. *)
Ltac entrywise :=
  repeat first
    [ apply (f_equal2 (@cons (list R)))
    | apply (f_equal2 (@cons R)) ];
  try reflexivity.

(** ** Shapes *)

Lemma shape_ne_3 (v : vec) :
  np.shape_ne (np.shape v) [3%nat] = negb (Nat.eqb (List.length v) 3).
Proof.
  unfold np.shape_ne, np.shape.
  destruct (list_eq_dec Nat.eq_dec [List.length v] [3%nat]) as [e | n].
  - injection e as ->. reflexivity.
  - destruct (Nat.eqb_spec (List.length v) 3) as [e | _]; [| reflexivity].
    exfalso. apply n. now rewrite e.
Qed.

Lemma shape_ne_wrong (v : vec) :
  List.length v <> 3%nat -> np.shape_ne (np.shape v) [3%nat] = true.
Proof.
  intros H. rewrite shape_ne_3.
  destruct (Nat.eqb_spec (List.length v) 3); [contradiction | reflexivity].
Qed.

Lemma shape_ne_triple (a b c : R) : np.shape_ne (np.shape [a; b; c]) [3%nat] = false.
Proof. now rewrite shape_ne_3. Qed.

(** C7: [lonlat], [M] and [rotationMatrix] raise ValueError, each with its own
    message, on every input that does not have exactly three components. *)
Theorem shape_errors (v : vec) :
  List.length v <> 3%nat ->
  lonlat v = Raise (ValueError "lonlat(): expects 3-vector") /\
  M v = Raise (ValueError "M(h): expects 3-vector h") /\
  rotationMatrix v = Raise (ValueError "rotationMatrix(h): expects 3-vector h").
Proof.
  intros H. unfold lonlat, M, rotationMatrix.
  rewrite (shape_ne_wrong v H). repeat split.
Qed.

(** The inputs of length 2 and of length 4. *)
Lemma shape_errors_witness :
  (lonlat [1; 2] = Raise (ValueError "lonlat(): expects 3-vector") /\
   M [1; 2] = Raise (ValueError "M(h): expects 3-vector h") /\
   rotationMatrix [1; 2] =
     Raise (ValueError "rotationMatrix(h): expects 3-vector h")) /\
  (lonlat [1; 2; 3; 4] = Raise (ValueError "lonlat(): expects 3-vector") /\
   M [1; 2; 3; 4] = Raise (ValueError "M(h): expects 3-vector h") /\
   rotationMatrix [1; 2; 3; 4] =
     Raise (ValueError "rotationMatrix(h): expects 3-vector h")).
Proof.
  split.
  - apply (shape_errors [1; 2]). simpl. lia.
  - apply (shape_errors [1; 2; 3; 4]). simpl. lia.
Defined.

(** ** The skew matrix *)

Lemma M_triple (hx hy hz : R) :
  M [hx; hy; hz] = Ok [[0; - hz; hy]; [hz; 0; - hx]; [- hy; hx; 0]].
Proof. unfold M. rewrite shape_ne_triple. reflexivity. Qed.

(** C6: [M [hx; hy; hz]] is the matrix [[0,-hz,hy],[hz,0,-hx],[-hy,hx,0]]; its
    entry (i,j) is the opposite of its entry (j,i), so its diagonal is zero;
    and its product with a 3-vector [u] is the cross product of [h] and [u]. *)
Theorem M_skew_cross (hx hy hz : R) :
  exists H : matrix,
    M [hx; hy; hz] = Ok H /\
    H = [[0; - hz; hy]; [hz; 0; - hx]; [- hy; hx; 0]] /\
    (forall i j a b, np.item2 H i j = Ok a -> np.item2 H j i = Ok b -> a = - b) /\
    (forall i a, np.item2 H i i = Ok a -> a = 0) /\
    np.transpose H = ((-1) *m H)%np /\
    (forall u0 u1 u2,
        np.matvec H [u0; u1; u2] = np.cross [hx; hy; hz] [u0; u1; u2]).
Proof.
  eexists. split; [apply M_triple |]. split; [reflexivity |].
  repeat split.
  - intros i j a b.
    destruct i as [| [| [| i]]]; destruct j as [| [| [| j]]];
      cbn; intros Ha Hb; try discriminate;
      try (destruct j; discriminate); try (destruct i; discriminate);
      injection Ha as <-; injection Hb as <-; lra.
  - intros i a.
    destruct i as [| [| [| i]]]; cbn; intros Ha;
      try (destruct i; discriminate); injection Ha as <-; reflexivity.
  - cbv [np.transpose np.ncols np.col np.mscale np.vscale hd List.length seq map nth].
    entrywise; lra.
  - intros u0 u1 u2.
    cbv [np.matvec np.cross np.dot map]. entrywise; ring.
Qed.

(** ** The identity rotation *)

Lemma identity_3 : np.identity 3 = [[1; 0; 0]; [0; 1; 0]; [0; 0; 1]].
Proof. reflexivity. Qed.

Lemma length_triple (a b c : R) : length [a; b; c] = sqrt (a * a + b * b + c * c).
Proof. unfold length. cbn [np.dot]. f_equal. ring. Qed.

(** C4: the length of the zero vector is 0, so [rotationMatrix [0; 0; 0]]
    takes the branch [angle == 0] and returns the identity matrix itself. *)
Theorem rotationMatrix_zero :
  length [0; 0; 0] = 0 /\
  rotationMatrix [0; 0; 0] = Ok (np.identity 3) /\
  np.identity 3 = [[1; 0; 0]; [0; 1; 0]; [0; 0; 1]].
Proof.
  assert (L : length [0; 0; 0] = 0).
  { rewrite length_triple.
    replace (0 * 0 + 0 * 0 + 0 * 0) with 0 by ring. apply sqrt_0. }
  split; [exact L |]. split; [| exact identity_3].
  unfold rotationMatrix. rewrite shape_ne_triple. cbv zeta.
  destruct (Req_dec_T (length [0; 0; 0]) 0) as [_ | n]; [reflexivity |].
  contradiction.
Qed.

(** ** Position vectors have unit length *)

Lemma positionVector_pair (lon lat : R) :
  positionVector [lon; lat] =
    Ok [cos (np.radians lon) * cos (np.radians lat);
        sin (np.radians lon) * cos (np.radians lat);
        sin (np.radians lat)].
Proof. reflexivity. Qed.

Lemma sphere_unit (u w : R) :
  cos u * cos w * (cos u * cos w) + sin u * cos w * (sin u * cos w)
    + sin w * sin w = 1.
Proof.
  pose proof (sin2_cos2 u) as Hu. pose proof (sin2_cos2 w) as Hw.
  unfold Rsqr in Hu, Hw. nsatz.
Qed.

(** C5: for every longitude and latitude, [positionVector] returns a vector,
    and its [length] is 1. *)
Theorem positionVector_unit (lon lat : R) :
  exists p : vec,
    positionVector [lon; lat] = Ok p /\ length p = 1.
Proof.
  eexists. split; [apply positionVector_pair |].
  rewrite length_triple, sphere_unit. apply sqrt_1.
Qed.

(** ** Rodrigues' formula, entry by entry *)

Lemma rotationMatrix_zero_length (hx hy hz : R) :
  length [hx; hy; hz] = 0 ->
  rotationMatrix [hx; hy; hz] = Ok (np.identity 3).
Proof.
  intros H0. unfold rotationMatrix. rewrite shape_ne_triple. cbv zeta.
  destruct (Req_dec_T (length [hx; hy; hz]) 0) as [_ | n];
    [reflexivity | contradiction].
Qed.

Lemma rotationMatrix_rodrigues (hx hy hz : R) :
  length [hx; hy; hz] <> 0 ->
  rotationMatrix [hx; hy; hz] =
    Ok (rodrigues (sin (length [hx; hy; hz])) (cos (length [hx; hy; hz]))
          (hx / length [hx; hy; hz]) (hy / length [hx; hy; hz])
          (hz / length [hx; hy; hz])).
Proof.
  intros Hn. unfold rotationMatrix. rewrite shape_ne_triple. cbv zeta.
  destruct (Req_dec_T (length [hx; hy; hz]) 0) as [e | _]; [contradiction |].
  set (t := length [hx; hy; hz]).
  cbv [np.vdiv map]. rewrite M_triple. cbv [bind].
  f_equal.
  cbv [np.identity np.row_of np.matmul np.ncols np.col np.dot np.madd np.vadd
       np.mscale np.vscale hd List.length seq map nth Nat.eqb rodrigues].
  entrywise; ring.
Qed.

Lemma length_sqr (hx hy hz : R) :
  length [hx; hy; hz] * length [hx; hy; hz] = hx * hx + hy * hy + hz * hz.
Proof.
  rewrite length_triple. apply sqrt_sqrt. nra.
Qed.

Lemma length_nonneg (v : vec) : 0 <= length v.
Proof. unfold length. apply sqrt_pos. Qed.

(** The pole [h / length h] is a unit vector. *)
Lemma pole_unit (hx hy hz : R) :
  length [hx; hy; hz] <> 0 ->
  hx / length [hx; hy; hz] * (hx / length [hx; hy; hz])
  + hy / length [hx; hy; hz] * (hy / length [hx; hy; hz])
  + hz / length [hx; hy; hz] * (hz / length [hx; hy; hz]) = 1.
Proof.
  intros Hn. pose proof (length_sqr hx hy hz) as Hs.
  set (t := length [hx; hy; hz]) in *.
  replace (hx / t * (hx / t) + hy / t * (hy / t) + hz / t * (hz / t))
    with ((hx * hx + hy * hy + hz * hz) / (t * t)) by (field; exact Hn).
  rewrite <- Hs. field. exact Hn.
Qed.

Section RodriguesAlgebra.

Variables s c a b d : R.
Hypothesis trig : s * s + c * c = 1.
Hypothesis unit : a * a + b * b + d * d = 1.

Let Rm := rodrigues s c a b d.

Lemma rodrigues_transpose :
  np.transpose Rm = rodrigues (- s) c a b d.
Proof.
  cbv [Rm rodrigues np.transpose np.ncols np.col hd List.length seq map nth].
  entrywise; ring.
Qed.

Lemma rodrigues_orthonormal_l :
  np.matmul (np.transpose Rm) Rm = np.identity 3.
Proof.
  cbv [Rm rodrigues np.transpose np.matmul np.ncols np.col np.dot np.identity
       np.row_of hd List.length seq map nth Nat.eqb].
  entrywise; nsatz.
Qed.

Lemma rodrigues_orthonormal_r :
  np.matmul Rm (np.transpose Rm) = np.identity 3.
Proof.
  cbv [Rm rodrigues np.transpose np.matmul np.ncols np.col np.dot np.identity
       np.row_of hd List.length seq map nth Nat.eqb].
  entrywise; nsatz.
Qed.

Lemma rodrigues_det : det Rm = 1.
Proof.
  cbv [Rm rodrigues det nth]. nsatz.
Qed.

Lemma rodrigues_isometry (v0 v1 v2 : R) :
  np.dot (np.matvec Rm [v0; v1; v2]) (np.matvec Rm [v0; v1; v2])
  = np.dot [v0; v1; v2] [v0; v1; v2].
Proof.
  cbv [Rm rodrigues np.matvec np.dot map]. nsatz.
Qed.

End RodriguesAlgebra.

Lemma trig_unit (t : R) : sin t * sin t + cos t * cos t = 1.
Proof. pose proof (sin2_cos2 t) as H. unfold Rsqr in H. exact H. Qed.

Lemma length_dot_eq (u v : vec) :
  np.dot u u = np.dot v v -> length u = length v.
Proof. unfold length. now intros ->. Qed.

(** ** Rotation matrices are orthonormal *)

(** C2: for every 3-vector [h], [rotationMatrix h] returns a matrix [Rm] whose
    transpose is its inverse on both sides, whose determinant is 1, and whose
    product with any 3-vector [v] has the length of [v]. *)
Theorem rotationMatrix_orthonormal (hx hy hz : R) :
  exists Rm : matrix,
    rotationMatrix [hx; hy; hz] = Ok Rm /\
    np.matmul (np.transpose Rm) Rm = np.identity 3 /\
    np.matmul Rm (np.transpose Rm) = np.identity 3 /\
    det Rm = 1 /\
    (forall v0 v1 v2 : R,
        length (np.matvec Rm [v0; v1; v2]) = length [v0; v1; v2]).
Proof.
  destruct (Req_dec_T (length [hx; hy; hz]) 0) as [H0 | Hn].
  - exists (np.identity 3). split; [now apply rotationMatrix_zero_length |].
    repeat split.
    + cbv [np.transpose np.matmul np.ncols np.col np.dot np.identity
           np.row_of hd List.length seq map nth Nat.eqb].
      entrywise; ring.
    + cbv [np.transpose np.matmul np.ncols np.col np.dot np.identity
           np.row_of hd List.length seq map nth Nat.eqb].
      entrywise; ring.
    + cbv [det np.identity np.row_of seq map nth Nat.eqb]. ring.
    + intros v0 v1 v2. apply length_dot_eq.
      cbv [np.matvec np.dot np.identity np.row_of seq map Nat.eqb]. ring.
  - eexists. split; [now apply rotationMatrix_rodrigues |].
    pose proof (trig_unit (length [hx; hy; hz])) as Ht.
    pose proof (pole_unit hx hy hz Hn) as Hu.
    repeat split.
    + now apply rodrigues_orthonormal_l.
    + now apply rodrigues_orthonormal_r.
    + now apply rodrigues_det.
    + intros v0 v1 v2. apply length_dot_eq. now apply rodrigues_isometry.
Qed.

(** ** Negating the rotation vector inverts the rotation *)

Lemma length_neg (hx hy hz : R) :
  length [- hx; - hy; - hz] = length [hx; hy; hz].
Proof. rewrite !length_triple. f_equal. ring. Qed.

(** C10: [rotationMatrix (-h)] is the transpose of [rotationMatrix h], and the
    product of the two matrices, in either order, is the identity matrix. *)
Theorem rotationMatrix_neg_transpose (hx hy hz : R) :
  exists Rm Rn : matrix,
    rotationMatrix [hx; hy; hz] = Ok Rm /\
    rotationMatrix (np.vneg [hx; hy; hz]) = Ok Rn /\
    Rn = np.transpose Rm /\
    np.matmul Rm Rn = np.identity 3 /\
    np.matmul Rn Rm = np.identity 3.
Proof.
  cbv [np.vneg map].
  destruct (Req_dec_T (length [hx; hy; hz]) 0) as [H0 | Hn].
  - exists (np.identity 3), (np.identity 3).
    split; [now apply rotationMatrix_zero_length |].
    split; [apply rotationMatrix_zero_length; now rewrite length_neg |].
    repeat split;
      cbv [np.transpose np.matmul np.ncols np.col np.dot np.identity
           np.row_of hd List.length seq map nth Nat.eqb];
      entrywise; ring.
  - pose proof (trig_unit (length [hx; hy; hz])) as Ht.
    pose proof (pole_unit hx hy hz Hn) as Hu.
    eexists. eexists.
    split; [now apply rotationMatrix_rodrigues |].
    split; [apply rotationMatrix_rodrigues; now rewrite length_neg |].
    rewrite length_neg.
    set (t := length [hx; hy; hz]) in *.
    assert (E : rodrigues (sin t) (cos t) (- hx / t) (- hy / t) (- hz / t)
                = np.transpose
                    (rodrigues (sin t) (cos t) (hx / t) (hy / t) (hz / t))).
    { rewrite rodrigues_transpose. unfold rodrigues.
      entrywise; field; exact Hn. }
    split; [exact E |]. rewrite E. split.
    + now apply rodrigues_orthonormal_r.
    + now apply rodrigues_orthonormal_l.
Qed.

(** ** Recovering the rotation vector *)

Lemma rodrigues_trace (s c a b d : R) :
  a * a + b * b + d * d = 1 ->
  np.trace (rodrigues s c a b d) = 1 + 2 * c.
Proof.
  intros Hu. cbv [np.trace np.diagonal rodrigues nth_error fold_right]. nsatz.
Qed.

Lemma hVector_rodrigues (s c a b d : R) :
  s * s + c * c = 1 ->
  a * a + b * b + d * d = 1 ->
  0 < s ->
  hVector (rodrigues s c a b d) = Ok (np.vscale (acos c) [a; b; d]).
Proof.
  intros Ht Hu Hs. unfold hVector.
  rewrite (rodrigues_trace s c a b d Hu).
  replace ((1 + 2 * c - 1) / 2) with c by field.
  cbv [np.item2 np.item rodrigues nth_error bind].
  set (v := [_; _; _]).
  assert (Lv : length v = 2 * s).
  { unfold v. rewrite length_triple.
    rewrite <- (sqrt_square (2 * s)) by lra. f_equal. nsatz. }
  rewrite Lv.
  destruct (Rlt_dec c (-1)) as [H | _]; [nra |].
  destruct (Rlt_dec 1 c) as [H | _]; [nra |].
  destruct (Req_dec_T (2 * s) 0) as [H | _]; [lra |].
  f_equal. unfold v. cbv [np.vdiv np.vscale map].
  entrywise; field; lra.
Qed.

(** In exact arithmetic, when the magnitude of [h] is strictly between 0 and
    pi, [hVector] applied to [rotationMatrix h] returns [h]: the formulas of
    the two functions are inverse to each other there.  A run on float64
    loses this for magnitudes within about 3e-8 of pi, where the trace rounds
    below -1 and [np.arccos] returns NaN. *)
Theorem hVector_rotationMatrix (hx hy hz : R) :
  0 < length [hx; hy; hz] < PI ->
  exists Rm : matrix,
    rotationMatrix [hx; hy; hz] = Ok Rm /\
    hVector Rm = Ok [hx; hy; hz].
Proof.
  intros [Hpos Hpi].
  assert (Hn : length [hx; hy; hz] <> 0) by lra.
  eexists. split; [now apply rotationMatrix_rodrigues |].
  set (t := length [hx; hy; hz]) in *.
  rewrite hVector_rodrigues.
  - rewrite acos_cos by lra.
    cbv [np.vscale map]. f_equal. entrywise; field; exact Hn.
  - apply trig_unit.
  - now apply pole_unit.
  - apply sin_gt_0; assumption.
Qed.

Lemma hVector_rotationMatrix_witness :
  0 < length [1; 0; 0] < PI /\
  exists Rm : matrix,
    rotationMatrix [1; 0; 0] = Ok Rm /\ hVector Rm = Ok [1; 0; 0].
Proof.
  assert (L : 0 < length [1; 0; 0] < PI).
  { rewrite length_triple.
    replace (1 * 1 + 0 * 0 + 0 * 0) with 1 by ring. rewrite sqrt_1.
    pose proof PI_RGT_0. pose proof PI2_1. lra. }
  split; [exact L | exact (hVector_rotationMatrix 1 0 0 L)].
Defined.

(** ** Longitude and latitude of a vector *)

Lemma sign_pos (y : R) : 0 < y -> np.sign y = 1.
Proof.
  intros H. unfold np.sign. destruct (total_order_T y 0) as [[l | e] | g]; lra.
Qed.

Lemma sign_neg (y : R) : y < 0 -> np.sign y = -1.
Proof.
  intros H. unfold np.sign. destruct (total_order_T y 0) as [[l | e] | g]; lra.
Qed.

Lemma sign_zero : np.sign 0 = 0.
Proof.
  unfold np.sign. destruct (total_order_T 0 0) as [[l | e] | g]; lra.
Qed.

Lemma mod_small (a n : R) : 0 < n -> 0 <= a < n -> np.mod_ a n = a.
Proof.
  intros Hn [H0 H1]. unfold np.mod_.
  assert (Hi : 0 < / n) by now apply Rinv_0_lt_compat.
  assert (Hr : n * / n = 1) by (field; lra).
  rewrite (Zfloor_eq 0 (a / n)); [simpl; ring |].
  unfold Rdiv. simpl. split; nra.
Qed.

Lemma mod_negative (a n : R) : 0 < n -> - n <= a < 0 -> np.mod_ a n = a + n.
Proof.
  intros Hn [H0 H1]. unfold np.mod_.
  assert (Hi : 0 < / n) by now apply Rinv_0_lt_compat.
  assert (Hr : n * / n = 1) by (field; lra).
  rewrite (Zfloor_eq (-1) (a / n)); [simpl; ring |].
  unfold Rdiv. simpl. split; nra.
Qed.

Lemma degrees_radians (x : R) : np.degrees (np.radians x) = x.
Proof. unfold np.degrees, np.radians. field. apply PI_neq0. Qed.

Lemma lonlat_unit (x y z : R) :
  length [x; y; z] = 1 ->
  lonlat [x; y; z] = Ok [np.mod_ (branch_lon x y) 360; np.degrees (asin z)].
Proof.
  intros H1. unfold lonlat. rewrite shape_ne_triple. cbv zeta. rewrite H1.
  destruct (Req_dec_T 1 0) as [e | _]; [lra |].
  cbv [nth]. rewrite !Rdiv_1_r. reflexivity.
Qed.

Lemma tan_minus_PI (t : R) : tan (t - PI) = tan t.
Proof.
  unfold tan.
  pose proof (neg_sin (t - PI)) as Hs. pose proof (neg_cos (t - PI)) as Hc.
  replace (t - PI + PI) with t in Hs, Hc by ring.
  rewrite Hs, Hc. unfold Rdiv.
  destruct (Req_dec_T (cos (t - PI)) 0) as [e | n].
  - rewrite e, Ropp_0, Rinv_0. ring.
  - field. exact n.
Qed.

Lemma tan_polar (t r : R) : 0 < r -> cos t <> 0 ->
  sin t * r / (cos t * r) = tan t.
Proof. intros Hr Hc. unfold tan. field. split; lra. Qed.

Section Polar.

Variables d r : R.
Hypothesis r_pos : 0 < r.
Hypothesis d_range : 0 <= d < 360.

Let t := np.radians d.

Local Ltac radians_bounds :=
  pose proof PI_RGT_0; unfold t, np.radians; nra.

(** With [x = r cos t] and [y = r sin t] for the angle [t] of [d] degrees,
    the choice of the longitude followed by the reduction modulo 360 gives
    back [d]. *)
Lemma branch_lon_polar :
  np.mod_ (branch_lon (cos t * r) (sin t * r)) 360 = d.
Proof.
  pose proof PI_RGT_0 as HPI.
  assert (Hd : np.degrees t = d) by apply degrees_radians.
  assert (HdPI : np.degrees (t - PI) = d - 180).
  { unfold t, np.degrees, np.radians. field. lra. }
  unfold branch_lon.
  destruct (Rtotal_order d 90) as [L1 | [E1 | G1]].
  - (* first quadrant *)
    assert (Hc : 0 < cos t) by (apply cos_gt_0; radians_bounds).
    destruct (Req_dec_T (cos t * r) 0) as [e | _]; [nra |].
    destruct (Rgt_dec (cos t * r) 0) as [_ | n]; [| nra].
    rewrite tan_polar by lra.
    rewrite atan_tan by (split; radians_bounds).
    rewrite Hd. apply mod_small; lra.
  - (* 90 degrees *)
    assert (Ht : t = PI / 2) by (unfold t, np.radians; rewrite E1; field).
    rewrite Ht, cos_PI2, sin_PI2.
    destruct (Req_dec_T (0 * r) 0) as [_ | n]; [| lra].
    rewrite sign_pos by lra. rewrite mod_small; lra.
  - destruct (Rtotal_order d 180) as [L2 | [E2 | G2]].
    + (* second quadrant *)
      assert (Hc : cos t < 0) by (apply cos_lt_0; radians_bounds).
      assert (Hs : 0 < sin t) by (apply sin_gt_0; radians_bounds).
      destruct (Req_dec_T (cos t * r) 0) as [e | _]; [nra |].
      destruct (Rgt_dec (cos t * r) 0) as [g | _]; [nra |].
      destruct (Req_dec_T (sin t * r) 0) as [e | _]; [nra |].
      rewrite sign_pos by nra.
      rewrite tan_polar by lra. rewrite <- tan_minus_PI.
      rewrite atan_tan by (split; radians_bounds).
      rewrite HdPI. rewrite mod_small; lra.
    + (* 180 degrees *)
      assert (Ht : t = PI) by (unfold t, np.radians; rewrite E2; field).
      rewrite Ht, cos_PI, sin_PI.
      destruct (Req_dec_T (-1 * r) 0) as [e | _]; [lra |].
      destruct (Rgt_dec (-1 * r) 0) as [g | _]; [lra |].
      destruct (Req_dec_T (0 * r) 0) as [_ | n]; [| lra].
      replace (0 * r / (-1 * r)) with 0 by (field; lra).
      rewrite atan_0. unfold np.degrees.
      replace (180 + 0 * 180 / PI) with 180 by (field; lra).
      rewrite mod_small; lra.
    + destruct (Rtotal_order d 270) as [L3 | [E3 | G3]].
      * (* third quadrant *)
        assert (Hc : cos t < 0) by (apply cos_lt_0; radians_bounds).
        assert (Hs : sin t < 0) by (apply sin_lt_0; radians_bounds).
        destruct (Req_dec_T (cos t * r) 0) as [e | _]; [nra |].
        destruct (Rgt_dec (cos t * r) 0) as [g | _]; [nra |].
        destruct (Req_dec_T (sin t * r) 0) as [e | _]; [nra |].
        rewrite sign_neg by nra.
        rewrite tan_polar by lra. rewrite <- tan_minus_PI.
        rewrite atan_tan by (split; radians_bounds).
        rewrite HdPI. rewrite mod_negative; lra.
      * (* 270 degrees *)
        assert (Ht : t = 3 * (PI / 2))
          by (unfold t, np.radians; rewrite E3; field).
        assert (Hs : sin t = -1).
        { rewrite Ht. replace (3 * (PI / 2)) with (PI / 2 + PI) by field.
          rewrite neg_sin, sin_PI2. reflexivity. }
        rewrite Hs. rewrite Ht, cos_3PI2.
        destruct (Req_dec_T (0 * r) 0) as [_ | n]; [| lra].
        rewrite sign_neg by lra. rewrite mod_negative; lra.
      * (* fourth quadrant *)
        assert (Hc : 0 < cos t).
        { replace t with (t - 2 * PI + 2 * INR 1 * PI) by (simpl; ring).
          rewrite cos_period. apply cos_gt_0; radians_bounds. }
        destruct (Req_dec_T (cos t * r) 0) as [e | _]; [nra |].
        destruct (Rgt_dec (cos t * r) 0) as [_ | n]; [| nra].
        rewrite tan_polar by lra.
        rewrite <- tan_minus_PI. rewrite <- (tan_minus_PI (t - PI)).
        rewrite atan_tan by (split; radians_bounds).
        replace (np.degrees (t - PI - PI)) with (d - 360)
          by (unfold t, np.degrees, np.radians; field; lra).
        rewrite mod_negative; lra.
Qed.

End Polar.

Lemma radians_quarter (lat : R) :
  -90 <= lat <= 90 -> - (PI / 2) <= np.radians lat <= PI / 2.
Proof. intros H. pose proof PI_RGT_0. unfold np.radians. split; nra. Qed.

Lemma lonlat_sphere (u w : R) :
  lonlat [cos u * cos w; sin u * cos w; sin w] =
    Ok [np.mod_ (branch_lon (cos u * cos w) (sin u * cos w)) 360;
        np.degrees (asin (sin w))].
Proof.
  apply lonlat_unit. rewrite length_triple, sphere_unit. apply sqrt_1.
Qed.

(** Away from the poles the round trip gives back the point. *)
Lemma lonlat_positionVector_off_pole (lon lat : R) :
  0 <= lon < 360 -> -90 < lat < 90 ->
  lonlat [cos (np.radians lon) * cos (np.radians lat);
          sin (np.radians lon) * cos (np.radians lat);
          sin (np.radians lat)] = Ok [lon; lat].
Proof.
  intros Hlon Hlat. rewrite lonlat_sphere.
  assert (Hq : - (PI / 2) < np.radians lat < PI / 2).
  { pose proof PI_RGT_0. unfold np.radians. split; nra. }
  rewrite branch_lon_polar.
  - rewrite asin_sin by lra. now rewrite degrees_radians.
  - apply cos_gt_0; lra.
  - exact Hlon.
Qed.

(** For a longitude in [0, 360) and a latitude strictly between -90 and 90,
    [positionVector] returns a vector and [lonlat] of that vector returns the
    longitude and the latitude it came from.  The latitudes 90 and -90 are
    left out: in exact arithmetic the position vector is on the z axis there
    and the longitude is lost, while a run on float64 keeps it in a residue
    of the cosine. *)
Theorem lonlat_positionVector (lon lat : R) :
  0 <= lon < 360 -> -90 < lat < 90 ->
  exists v : vec,
    positionVector [lon; lat] = Ok v /\
    lonlat v = Ok [lon; lat].
Proof.
  intros Hlon Hlat.
  eexists. split; [apply positionVector_pair |].
  now apply lonlat_positionVector_off_pole.
Qed.

Lemma lonlat_positionVector_witness :
  0 <= 45 < 360 /\ -90 < 30 < 90 /\
  exists v : vec,
    positionVector [45; 30] = Ok v /\ lonlat v = Ok [45; 30].
Proof.
  assert (H1 : 0 <= 45 < 360) by lra.
  assert (H2 : -90 < 30 < 90) by lra.
  split; [exact H1 |]. split; [exact H2 |].
  exact (lonlat_positionVector 45 30 H1 H2).
Defined.

(** In exact arithmetic a longitude that [lonlat] returns is in [0, 360). *)
Lemma mod_range (a n : R) : 0 < n -> 0 <= np.mod_ a n < n.
Proof.
  intros Hn. unfold np.mod_.
  pose proof (Zfloor_bound (a / n)) as [Hl Hu].
  assert (Hi : 0 < / n) by now apply Rinv_0_lt_compat.
  assert (Hr : n * / n = 1) by (field; lra).
  assert (Ha : a = n * (a / n)) by (field; lra).
  set (q := a / n) in *. set (k := IZR (Zfloor q)) in *.
  rewrite Ha. split; nra.
Qed.

(** ** A vector on the z axis *)

Lemma length_on_axis (z : R) : z <> 0 -> length [0; 0; z] <> 0.
Proof.
  intros Hz H0. pose proof (length_sqr 0 0 z) as Hs. rewrite H0 in Hs. nra.
Qed.

(** In exact arithmetic, for a vector [(0, 0, z)] with [z] not 0 the length
    is not 0, the normalised [x] is 0, so the branch [x == 0] is taken; there
    [np.sign y] is the sign of 0, which is 0, the longitude is 0 times 90, and
    its remainder modulo 360 is 0: [lonlat] returns longitude 0.  On float64
    this needs a [z] whose square is not 0, the case of
    [lonlat_on_axis_float] below; [lonlat_underflow] is the other case. *)
Theorem lonlat_on_axis (z : R) :
  z <> 0 ->
  length [0; 0; z] <> 0 /\
  0 / length [0; 0; z] = 0 /\
  np.sign (0 / length [0; 0; z]) = 0 /\
  np.mod_ (np.sign (0 / length [0; 0; z]) * 90) 360 = 0 /\
  lonlat [0; 0; z] = Ok [0; np.degrees (asin (z / length [0; 0; z]))].
Proof.
  intros Hz. pose proof (length_on_axis z Hz) as HL.
  assert (Hm : np.mod_ (np.sign 0 * 90) 360 = 0).
  { rewrite sign_zero, Rmult_0_l. apply mod_small; lra. }
  split; [exact HL |]. rewrite Rdiv_0_l.
  split; [reflexivity |]. split; [apply sign_zero |].
  split; [exact Hm |].
  unfold lonlat. rewrite shape_ne_triple. cbv zeta.
  destruct (Req_dec_T (length [0; 0; z]) 0) as [e | _]; [contradiction |].
  cbv [nth]. rewrite Rdiv_0_l.
  destruct (Req_dec_T 0 0) as [_ | n]; [| lra].
  now rewrite Hm.
Qed.

Lemma lonlat_on_axis_witness :
  2 <> 0 /\
  lonlat [0; 0; 2] = Ok [0; np.degrees (asin (2 / length [0; 0; 2]))].
Proof.
  assert (H : 2 <> 0) by lra.
  split; [exact H |]. exact (proj2 (proj2 (proj2 (proj2 (lonlat_on_axis 2 H))))).
Defined.

(** ** The segments [readGMTxy] returns *)

Section ReadGMTxyFacts.

Variable float : string -> result R.

(** A line whose first word is [>] closes the current segment: the segment
    is appended when it is not empty, and the next one starts empty. *)
Lemma loop_body_marker (st : loop_state) (line : string) :
  str.item (str.split (str.strip line)) 0 = Ok ">"%string ->
  loop_body float st line =
    Ok (mkState
          (match x st with [] => feature st | _ => feature st ++ [[x st; y st]] end)
          [] []).
Proof. intros H. unfold loop_body. rewrite H. reflexivity. Qed.

(** A data line appends one number to each list of the current segment and
    leaves the segments already collected as they are. *)
Lemma loop_body_data (st : loop_state) (line : string) :
  data_line float line ->
  exists x0 y0,
    loop_body float st line =
      Ok (mkState (feature st) (x st ++ [x0]) (y st ++ [y0])).
Proof.
  intros (w0 & w1 & x0 & y0 & H0 & Hne & Hx & H1 & Hy).
  exists x0, y0. unfold loop_body.
  rewrite H0. cbn [bind]. rewrite Hne, Hx. cbn [bind]. rewrite H1.
  cbn [bind]. rewrite Hy. reflexivity.
Qed.

Lemma loop_app (st : loop_state) (a b : list string) :
  loop float st (a ++ b) = (st' <- loop float st a ;; loop float st' b).
Proof.
  revert st. induction a as [| line a IH]; intros st; [reflexivity |].
  cbn [app loop]. destruct (loop_body float st line) as [st' | e |];
    cbn [bind]; [apply IH | reflexivity | reflexivity].
Qed.

Lemma loop_data_lines (b : list string) :
  Forall (data_line float) b ->
  forall st, exists st',
    loop float st b = Ok st' /\ feature st' = feature st.
Proof.
  induction 1 as [| line b Hl _ IH]; intros st.
  - exists st. split; reflexivity.
  - destruct (loop_body_data st line Hl) as (x0 & y0 & E).
    destruct (IH (mkState (feature st) (x st ++ [x0]) (y st ++ [y0])))
      as (st' & E' & F).
    exists st'. cbn [loop]. rewrite E. cbn [bind]. split; [exact E' | exact F].
Qed.

(** The data lines after the last marker line never reach the result: the
    loop appends a segment only when it reads the marker that follows it,
    and nothing is appended after the loop. *)
Lemma readGMTxy_ignores_last_segment (a b : list string) :
  Forall (data_line float) b ->
  readGMTxy float (a ++ b) = readGMTxy float a.
Proof.
  intros Hb. unfold readGMTxy. rewrite loop_app.
  destruct (loop float (mkState [] [] []) a) as [st | e |]; cbn [bind];
    try reflexivity.
  destruct (loop_data_lines b Hb st) as (st' & E & F).
  rewrite E. cbn [bind]. now rewrite F.
Qed.

End ReadGMTxyFacts.

(** C9 on a file of one segment, [>], [1 2], [3 4]: the segment is not empty,
    and the list returned is empty. *)
Theorem readGMTxy_loses_final_segment :
  readGMTxy float_digits
    [(">" ++ newline)%string; ("1 2" ++ newline)%string; ("3 4" ++ newline)%string]
  = Ok [].
Proof. vm_compute. reflexivity. Qed.

(** The same file followed by one more marker line: the segment is returned. *)
Lemma readGMTxy_closed_segment :
  readGMTxy float_digits
    [(">" ++ newline)%string; ("1 2" ++ newline)%string; ("3 4" ++ newline)%string;
     (">" ++ newline)%string]
  = Ok [[[1; 3]; [2; 4]]].
Proof. reflexivity. Qed.

(** A file with no marker line at all returns no segment either. *)
Lemma readGMTxy_no_marker :
  readGMTxy float_digits [("1 2" ++ newline)%string; ("3 4" ++ newline)%string]
  = Ok [].
Proof. vm_compute. reflexivity. Qed.

(** ** The arc sine in [lonlat] is taken inside its domain *)

(** In exact arithmetic the normalised [z] is between -1 and 1 whenever the
    length is not 0, so [np.arcsin] never returns NaN there. *)
Lemma normalised_z_in_domain (a b c : R) :
  length [a; b; c] <> 0 ->
  -1 <= c / length [a; b; c] <= 1.
Proof.
  intros Hn. pose proof (length_nonneg [a; b; c]) as H0.
  pose proof (length_sqr a b c) as Hs.
  set (L := length [a; b; c]) in *.
  assert (HL : 0 < L) by lra.
  assert (Hc : - L <= c <= L) by (split; nra).
  assert (Hi : 0 < / L) by now apply Rinv_0_lt_compat.
  assert (Hr : L * / L = 1) by (field; lra).
  unfold Rdiv. split; nra.
Qed.

(** ** The degenerate inputs *)

(** The zero vector has length 0: [lonlat] divides 0 by 0. *)
Lemma lonlat_zero_vector : lonlat [0; 0; 0] = AllNaN.
Proof.
  unfold lonlat. rewrite shape_ne_triple. cbv zeta.
  destruct (Req_dec_T (length [0; 0; 0]) 0) as [_ | n]; [reflexivity |].
  exfalso. apply n. rewrite length_triple.
  replace (0 * 0 + 0 * 0 + 0 * 0) with 0 by ring. apply sqrt_0.
Qed.

(** The identity matrix is the rotation of angle 0: its antisymmetric part is
    the zero vector, and [hVector] divides 0 by 0. *)
Lemma hVector_identity : hVector (np.identity 3) = AllNaN.
Proof.
  unfold hVector.
  cbv [np.identity np.row_of np.item2 np.item seq map Nat.eqb nth_error bind
       np.trace np.diagonal fold_right].
  assert (L : length [0 - 0; 0 - 0; 0 - 0] = 0).
  { rewrite length_triple.
    replace ((0 - 0) * (0 - 0) + (0 - 0) * (0 - 0) + (0 - 0) * (0 - 0))
      with 0 by ring.
    apply sqrt_0. }
  rewrite L.
  destruct (Rlt_dec ((1 + (1 + (1 + 0)) - 1) / 2) (-1)) as [H | _]; [lra |].
  destruct (Rlt_dec 1 ((1 + (1 + (1 + 0)) - 1) / 2)) as [H | _]; [lra |].
  destruct (Req_dec_T 0 0) as [_ | n]; [reflexivity | lra].
Qed.

(** A marker followed by text without a space is not taken for a marker: its
    first word goes to [float]. *)
Lemma readGMTxy_marker_with_text :
  readGMTxy float_digits [(">a" ++ newline)%string]
  = Raise (ValueError "could not convert string to float").
Proof. reflexivity. Qed.

(** A blank line has no first word. *)
Lemma readGMTxy_blank_line (float : string -> result R) :
  readGMTxy float [newline] = Raise IndexError.
Proof. reflexivity. Qed.

(** ** The length of a vector of any dimension *)

Lemma dot_self_nonneg (v : vec) : 0 <= np.dot v v.
Proof.
  induction v as [| a v IH]; cbn [np.dot]; [lra | nra].
Qed.

Lemma dot_vdiv (v : vec) (c : R) :
  c <> 0 -> np.dot (np.vdiv v c) (np.vdiv v c) = np.dot v v / (c * c).
Proof.
  intros Hc. induction v as [| a v IH]; cbn [np.vdiv np.dot map].
  - field. exact Hc.
  - unfold np.vdiv in IH. rewrite IH. field. exact Hc.
Qed.

Lemma dot_vscale (v : vec) (c : R) :
  np.dot (np.vscale c v) (np.vscale c v) = c * c * np.dot v v.
Proof.
  induction v as [| a v IH]; cbn [np.vscale np.dot map]; [ring |].
  unfold np.vscale in IH. rewrite IH. ring.
Qed.

Lemma length_square (v : vec) : length v * length v = np.dot v v.
Proof. unfold length. apply sqrt_sqrt, dot_self_nonneg. Qed.

Lemma length_vdiv_self (v : vec) :
  length v <> 0 -> length (np.vdiv v (length v)) = 1.
Proof.
  intros Hn. unfold length at 1. rewrite dot_vdiv by exact Hn.
  rewrite length_square. rewrite <- sqrt_1. f_equal.
  pose proof (length_square v) as Hs. field.
  intros H0. apply Hn. unfold length. rewrite H0. apply sqrt_0.
Qed.

(** A vector that is not zero, divided by its length, has length 1: this is
    the normalisation [lonlat], [rotationMatrix] and [hVector] apply. *)
Theorem length_normalised (v : vec) :
  length v <> 0 -> length (np.vdiv v (length v)) = 1.
Proof. apply length_vdiv_self. Qed.

Lemma length_3_4 : length [3; 4] = 5.
Proof.
  unfold length. cbn [np.dot].
  apply sqrt_lem_1; lra.
Qed.

Lemma length_normalised_witness :
  length [3; 4] <> 0 /\ length (np.vdiv [3; 4] (length [3; 4])) = 1.
Proof.
  assert (H : length [3; 4] <> 0) by (rewrite length_3_4; lra).
  split; [exact H | exact (length_normalised [3; 4] H)].
Defined.

Lemma length_vscale_abs (c : R) (v : vec) :
  length (np.vscale c v) = Rabs c * length v.
Proof.
  unfold length. rewrite dot_vscale.
  rewrite sqrt_mult_alt by nra.
  f_equal. replace (c * c) with (Rsqr c) by reflexivity. apply sqrt_Rsqr_abs.
Qed.

(** Scaling a vector scales its length by the absolute value of the factor. *)
Theorem length_vscale (c : R) (v : vec) :
  length (np.vscale c v) = Rabs c * length v.
Proof. apply length_vscale_abs. Qed.

(** ** Position vectors: indexing and periodicity *)

(** [positionVector] reads the entries 0 and 1 of its argument: with fewer
    than two entries the indexing raises IndexError. *)
Theorem positionVector_short (v : vec) :
  (List.length v < 2)%nat -> positionVector v = Raise IndexError.
Proof.
  intros H. destruct v as [| a [| b v]]; cbn in H; try lia; reflexivity.
Qed.

Lemma positionVector_short_witness :
  (List.length [174] < 2)%nat /\ positionVector [174] = Raise IndexError.
Proof.
  assert (H : (List.length [174] < 2)%nat) by (simpl; lia).
  split; [exact H | exact (positionVector_short [174] H)].
Defined.

Lemma sin_cos_period_nat (t : R) (n : nat) :
  sin (t + 2 * PI * INR n) = sin t /\ cos (t + 2 * PI * INR n) = cos t.
Proof.
  replace (t + 2 * PI * INR n) with (t + 2 * INR n * PI) by ring.
  split; [apply sin_period | apply cos_period].
Qed.

Lemma sin_cos_period_Z (t : R) (k : Z) :
  sin (t + 2 * PI * IZR k) = sin t /\ cos (t + 2 * PI * IZR k) = cos t.
Proof.
  destruct (Z_le_gt_dec 0 k) as [Hk | Hk].
  - rewrite <- (Z2Nat.id k Hk), <- INR_IZR_INZ. apply sin_cos_period_nat.
  - assert (Hm : (0 <= - k)%Z) by lia.
    destruct (sin_cos_period_nat (t + 2 * PI * IZR k) (Z.to_nat (- k)))
      as [Hs Hc].
    rewrite INR_IZR_INZ, (Z2Nat.id _ Hm), opp_IZR in Hs, Hc.
    replace (t + 2 * PI * IZR k + 2 * PI * - IZR k) with t in Hs, Hc by ring.
    split; symmetry; assumption.
Qed.

Lemma radians_plus_turns (lon : R) (k : Z) :
  np.radians (lon + 360 * IZR k) = np.radians lon + 2 * PI * IZR k.
Proof. unfold np.radians. field. Qed.

(** The position vector depends on the first two entries only, and on the
    longitude only up to whole turns of 360 degrees. *)
Theorem positionVector_periodic (lon lat : R) (k : Z) (rest : vec) :
  positionVector (lon + 360 * IZR k :: lat :: rest) = positionVector [lon; lat].
Proof.
  cbv [positionVector np.item nth_error bind].
  rewrite radians_plus_turns.
  destruct (sin_cos_period_Z (np.radians lon) k) as [-> ->]. reflexivity.
Qed.

(** ** What [lonlat] returns, for any vector *)

Lemma lonlat_triple (a b c : R) :
  length [a; b; c] <> 0 ->
  lonlat [a; b; c] =
    Ok [np.mod_ (branch_lon (a / length [a; b; c]) (b / length [a; b; c])) 360;
        np.degrees (asin (c / length [a; b; c]))].
Proof.
  intros Hn. unfold lonlat. rewrite shape_ne_triple. cbv zeta.
  destruct (Req_dec_T (length [a; b; c]) 0) as [e | _]; [contradiction |].
  reflexivity.
Qed.

Lemma degrees_quarter (t : R) :
  - (PI / 2) <= t <= PI / 2 -> -90 <= np.degrees t <= 90.
Proof.
  intros [Hl Hu]. pose proof PI_RGT_0 as HP.
  assert (Hi : 0 < / PI) by now apply Rinv_0_lt_compat.
  assert (Hr : PI * / PI = 1) by (field; lra).
  unfold np.degrees, Rdiv. split; nra.
Qed.

(** Every outcome of [lonlat]: a ValueError exactly for the inputs that do not
    have three components; for the others NaN, or a pair of a longitude
    between 0 and 360 and a latitude between -90 and 90.  The upper bound of
    the longitude is stated closed: the remainder is below 360 in exact
    arithmetic, and [np.mod] on float64 can round it up to 360.0 itself. *)
Theorem lonlat_outcomes (v : vec) :
  match lonlat v with
  | Ok r =>
      List.length v = 3%nat /\
      exists lon lat, r = [lon; lat] /\ 0 <= lon <= 360 /\ -90 <= lat <= 90
  | Raise e =>
      List.length v <> 3%nat /\ e = ValueError "lonlat(): expects 3-vector"
  | AllNaN => List.length v = 3%nat
  end.
Proof.
  unfold lonlat. rewrite shape_ne_3.
  destruct (Nat.eqb_spec (List.length v) 3) as [E | N]; cbn [negb].
  - cbv zeta. destruct (Req_dec_T (length v) 0) as [e | n]; [exact E |].
    split; [exact E |].
    eexists. eexists. split; [reflexivity |]. split.
    + pose proof (mod_range
        (if Req_dec_T (nth 0 v 0 / length v) 0
         then np.sign (nth 1 v 0 / length v) * 90
         else if Rgt_dec (nth 0 v 0 / length v) 0
              then np.degrees (atan (nth 1 v 0 / length v / (nth 0 v 0 / length v)))
              else if Req_dec_T (nth 1 v 0 / length v) 0
                   then 180 + np.degrees (atan (nth 1 v 0 / length v / (nth 0 v 0 / length v)))
                   else np.sign (nth 1 v 0 / length v) * 180
                        + np.degrees (atan (nth 1 v 0 / length v / (nth 0 v 0 / length v))))
        360) as Hm.
      lra.
    + apply degrees_quarter, asin_bound.
  - split; [exact N | reflexivity].
Qed.

(** ** From a vector to its point and back *)

Lemma radians_degrees (t : R) : np.radians (np.degrees t) = t.
Proof. unfold np.degrees, np.radians. field. apply PI_neq0. Qed.

Lemma radians_plus (a b : R) :
  np.radians (a + b) = np.radians a + np.radians b.
Proof. unfold np.radians. field. Qed.

Lemma radians_180 (s : R) : np.radians (s * 180) = s * PI.
Proof. unfold np.radians. field. Qed.

Lemma sqrt_sqr_pos (a : R) : 0 <= a -> sqrt (a * a) = a.
Proof. intros H. now apply sqrt_square. Qed.

Lemma sqrt_sqr_neg (a : R) : a <= 0 -> sqrt (a * a) = - a.
Proof.
  intros H. replace (a * a) with (- a * - a) by ring.
  apply sqrt_square. lra.
Qed.

(** The radius in the plane of the equator, for [x] not zero, in terms of
    the tangent [y / x]. *)
Lemma radius_tangent (x y : R) :
  x <> 0 ->
  sqrt (x * x + y * y) = Rabs x * sqrt (1 + (y / x)²).
Proof.
  intros Hx. apply sqrt_lem_1.
  - nra.
  - apply Rmult_le_pos; [apply Rabs_pos | apply sqrt_pos].
  - replace (Rabs x * sqrt (1 + (y / x)²) * (Rabs x * sqrt (1 + (y / x)²)))
      with (Rabs x * Rabs x * (sqrt (1 + (y / x)²) * sqrt (1 + (y / x)²)))
      by ring.
    rewrite sqrt_sqrt by (unfold Rsqr; nra).
    replace (Rabs x * Rabs x) with (x * x).
    + unfold Rsqr. field. exact Hx.
    + rewrite <- Rabs_mult. symmetry. apply Rabs_right. nra.
Qed.

Lemma sqrt_tangent_pos (t : R) : 0 < sqrt (1 + t²).
Proof. apply sqrt_lt_R0. unfold Rsqr. nra. Qed.

(** The longitude chosen by the four branches has the cosine and the sine of
    the direction of [(x, y)]. *)
Lemma branch_lon_direction (x y : R) :
  cos (np.radians (branch_lon x y)) * sqrt (x * x + y * y) = x /\
  sin (np.radians (branch_lon x y)) * sqrt (x * x + y * y) = y.
Proof.
  unfold branch_lon.
  destruct (Req_dec_T x 0) as [Ex | Nx].
  - subst x. replace (0 * 0 + y * y) with (y * y) by ring.
    destruct (Rtotal_order y 0) as [Ly | [Ey | Gy]].
    + rewrite sign_neg by exact Ly.
      replace (np.radians (-1 * 90)) with (- (PI / 2))
        by (unfold np.radians; field).
      rewrite cos_neg, sin_neg, cos_PI2, sin_PI2, sqrt_sqr_neg by lra.
      split; ring.
    + subst y. rewrite sign_zero.
      replace (0 * 0) with 0 by ring. rewrite sqrt_0. split; ring.
    + rewrite sign_pos by exact Gy.
      replace (np.radians (1 * 90)) with (PI / 2)
        by (unfold np.radians; field).
      rewrite cos_PI2, sin_PI2, sqrt_sqr_pos by lra.
      split; ring.
  - pose proof (sqrt_tangent_pos (y / x)) as Hq.
    rewrite (radius_tangent x y Nx).
    destruct (Rgt_dec x 0) as [Gx | NGx].
    + rewrite radians_degrees, cos_atan, sin_atan.
      rewrite Rabs_right by lra. split; field; lra.
    + assert (Lx : x < 0) by lra.
      rewrite Rabs_left by exact Lx.
      destruct (Req_dec_T y 0) as [Ey | Ny].
      * rewrite radians_plus, radians_degrees.
        replace (np.radians 180) with PI by (unfold np.radians; field).
        rewrite (Rplus_comm PI), neg_cos, neg_sin, cos_atan, sin_atan.
        split; field; lra.
      * rewrite radians_plus, radians_degrees, radians_180.
        assert (Hs : np.sign y = 1 \/ np.sign y = -1).
        { destruct (Rtotal_order y 0) as [Ly | [Ey | Gy]];
            [right; now apply sign_neg | contradiction | left; now apply sign_pos]. }
        destruct Hs as [-> | ->].
        -- rewrite Rmult_1_l, (Rplus_comm PI), neg_cos, neg_sin,
             cos_atan, sin_atan.
           split; field; lra.
        -- replace (-1 * PI + atan (y / x)) with (atan (y / x) + PI - 2 * PI)
             by ring.
           assert (Hc : cos (atan (y / x) + PI - 2 * PI) = - cos (atan (y / x))).
           { destruct (sin_cos_period_Z (atan (y / x) + PI) (-1)) as [_ Hc].
             replace (atan (y / x) + PI + 2 * PI * -1)
               with (atan (y / x) + PI - 2 * PI) in Hc by ring.
             rewrite Hc. apply neg_cos. }
           assert (Hsn : sin (atan (y / x) + PI - 2 * PI) = - sin (atan (y / x))).
           { destruct (sin_cos_period_Z (atan (y / x) + PI) (-1)) as [Hsn _].
             replace (atan (y / x) + PI + 2 * PI * -1)
               with (atan (y / x) + PI - 2 * PI) in Hsn by ring.
             rewrite Hsn. apply neg_sin. }
           rewrite Hc, Hsn, cos_atan, sin_atan. split; field; lra.
Qed.

Lemma mod_turns (a : R) :
  np.radians (np.mod_ a 360) = np.radians a + 2 * PI * IZR (- Zfloor (a / 360)).
Proof. unfold np.mod_, np.radians. rewrite opp_IZR. field. Qed.

(** [positionVector (lonlat v)] is [v] divided by its length, for every
    3-vector [v] that is not zero: the point [lonlat] returns is the one whose
    position vector is the projection of [v] on the unit sphere. *)
Theorem positionVector_lonlat (a b c : R) :
  length [a; b; c] <> 0 ->
  exists ll : vec,
    lonlat [a; b; c] = Ok ll /\
    positionVector ll = Ok (np.vdiv [a; b; c] (length [a; b; c])).
Proof.
  intros Hn. eexists. split; [now apply lonlat_triple |].
  pose proof (pole_unit a b c Hn) as Hu.
  pose proof (normalised_z_in_domain a b c Hn) as Hz.
  set (L := length [a; b; c]) in *.
  cbv [positionVector np.item nth_error bind np.vdiv map].
  rewrite mod_turns, radians_degrees.
  set (B := branch_lon (a / L) (b / L)).
  destruct (sin_cos_period_Z (np.radians B) (- Zfloor (B / 360))) as [-> ->].
  rewrite sin_asin by exact Hz. rewrite cos_asin by exact Hz.
  replace (1 - (c / L)²) with (a / L * (a / L) + b / L * (b / L))
    by (unfold Rsqr; lra).
  subst B.
  destruct (branch_lon_direction (a / L) (b / L)) as [-> ->].
  reflexivity.
Qed.

Lemma length_0_3_4 : length [0; 3; 4] = 5.
Proof. rewrite length_triple. apply sqrt_lem_1; lra. Qed.

Lemma positionVector_lonlat_witness :
  length [0; 3; 4] <> 0 /\
  exists ll : vec,
    lonlat [0; 3; 4] = Ok ll /\
    positionVector ll = Ok (np.vdiv [0; 3; 4] (length [0; 3; 4])).
Proof.
  assert (H : length [0; 3; 4] <> 0) by (rewrite length_0_3_4; lra).
  split; [exact H | exact (positionVector_lonlat 0 3 4 H)].
Defined.

(** ** The skew matrix and perpendicularity *)

(** The product of [M h] with [h] itself is the zero vector, and its product
    with any [u] is perpendicular both to [h] and to [u]. *)
Theorem M_perpendicular (hx hy hz : R) :
  exists H : matrix,
    M [hx; hy; hz] = Ok H /\
    np.matvec H [hx; hy; hz] = [0; 0; 0] /\
    (forall u0 u1 u2 : R,
        np.dot [hx; hy; hz] (np.matvec H [u0; u1; u2]) = 0 /\
        np.dot [u0; u1; u2] (np.matvec H [u0; u1; u2]) = 0).
Proof.
  eexists. split; [apply M_triple |]. split.
  - cbv [np.matvec np.dot map]. entrywise; ring.
  - intros u0 u1 u2. cbv [np.matvec np.dot map]. split; ring.
Qed.

(** ** Rotations about one axis *)

Lemma rodrigues_identity (a b d : R) : rodrigues 0 1 a b d = np.identity 3.
Proof.
  cbv [rodrigues np.identity np.row_of seq map Nat.eqb]. entrywise; ring.
Qed.

Lemma rodrigues_opp (s c a b d : R) :
  rodrigues (- s) c (- a) (- b) (- d) = rodrigues s c a b d.
Proof. unfold rodrigues. entrywise; ring. Qed.

(** The rotation matrix of [t h], for any real [t] and any [h] that is not
    zero: the axis is that of [h] and the angle is [t] times the length. *)
Lemma rotationMatrix_scaled (t hx hy hz : R) :
  length [hx; hy; hz] <> 0 ->
  rotationMatrix (np.vscale t [hx; hy; hz]) =
    Ok (rodrigues (sin (t * length [hx; hy; hz])) (cos (t * length [hx; hy; hz]))
          (hx / length [hx; hy; hz]) (hy / length [hx; hy; hz])
          (hz / length [hx; hy; hz])).
Proof.
  intros Hn. pose proof (length_vscale_abs t [hx; hy; hz]) as HL.
  cbv [np.vscale map] in *. set (L := length [hx; hy; hz]) in *.
  destruct (Rtotal_order t 0) as [Lt | [Et | Gt]].
  - rewrite Rabs_left in HL by exact Lt.
    assert (Hm : length [t * hx; t * hy; t * hz] <> 0) by (rewrite HL; nra).
    rewrite rotationMatrix_rodrigues by exact Hm. rewrite HL.
    replace (- t * L) with (- (t * L)) by ring.
    rewrite sin_neg, cos_neg. f_equal.
    rewrite <- (rodrigues_opp (sin (t * L))).
    unfold rodrigues. entrywise; field; lra.
  - subst t.
    assert (HL0 : length [0 * hx; 0 * hy; 0 * hz] = 0)
      by (rewrite HL, Rabs_R0; ring).
    rewrite rotationMatrix_zero_length by exact HL0.
    rewrite Rmult_0_l, sin_0, cos_0. now rewrite rodrigues_identity.
  - rewrite Rabs_right in HL by lra.
    assert (Hm : length [t * hx; t * hy; t * hz] <> 0) by (rewrite HL; nra).
    rewrite rotationMatrix_rodrigues by exact Hm. rewrite HL.
    f_equal. unfold rodrigues. entrywise; field; lra.
Qed.

Lemma rotationMatrix_scaled_zero (t hx hy hz : R) :
  length [hx; hy; hz] = 0 ->
  rotationMatrix (np.vscale t [hx; hy; hz]) = Ok (np.identity 3).
Proof.
  intros H0. pose proof (length_vscale_abs t [hx; hy; hz]) as HL.
  cbv [np.vscale map] in *. rewrite H0, Rmult_0_r in HL.
  now apply rotationMatrix_zero_length.
Qed.

Lemma identity_matmul : np.matmul (np.identity 3) (np.identity 3) = np.identity 3.
Proof.
  cbv [np.matmul np.ncols np.col np.dot np.identity np.row_of hd List.length
       seq map nth Nat.eqb].
  entrywise; ring.
Qed.

Section SameAxis.

Variables s1 c1 s2 c2 a b d : R.
Hypothesis unit : a * a + b * b + d * d = 1.

Lemma rodrigues_compose :
  np.matmul (rodrigues s1 c1 a b d) (rodrigues s2 c2 a b d)
  = rodrigues (s1 * c2 + c1 * s2) (c1 * c2 - s1 * s2) a b d.
Proof.
  cbv [rodrigues np.matmul np.ncols np.col np.dot hd List.length seq map nth].
  entrywise; nsatz.
Qed.

End SameAxis.

(** Rotations about the same axis compose by adding their angles: the product
    of the matrices of [t1 h] and [t2 h] is the matrix of [(t1 + t2) h], for
    all real [t1] and [t2]. *)
Theorem rotationMatrix_compose (t1 t2 hx hy hz : R) :
  exists R1 R2 R12 : matrix,
    rotationMatrix (np.vscale t1 [hx; hy; hz]) = Ok R1 /\
    rotationMatrix (np.vscale t2 [hx; hy; hz]) = Ok R2 /\
    rotationMatrix (np.vscale (t1 + t2) [hx; hy; hz]) = Ok R12 /\
    np.matmul R1 R2 = R12.
Proof.
  destruct (Req_dec_T (length [hx; hy; hz]) 0) as [H0 | Hn].
  - exists (np.identity 3), (np.identity 3), (np.identity 3).
    repeat split; try (now apply rotationMatrix_scaled_zero).
    apply identity_matmul.
  - eexists. eexists. eexists.
    split; [now apply rotationMatrix_scaled |].
    split; [now apply rotationMatrix_scaled |].
    split; [now apply rotationMatrix_scaled |].
    rewrite rodrigues_compose by now apply pole_unit.
    rewrite Rmult_plus_distr_r, sin_plus, cos_plus. reflexivity.
Qed.

(** The rotation leaves its own axis where it is: the product of
    [rotationMatrix h] with [h] is [h]. *)
Theorem rotationMatrix_fixes_axis (hx hy hz : R) :
  exists Rm : matrix,
    rotationMatrix [hx; hy; hz] = Ok Rm /\
    np.matvec Rm [hx; hy; hz] = [hx; hy; hz].
Proof.
  destruct (Req_dec_T (length [hx; hy; hz]) 0) as [H0 | Hn].
  - exists (np.identity 3). split; [now apply rotationMatrix_zero_length |].
    cbv [np.matvec np.dot np.identity np.row_of seq map Nat.eqb].
    entrywise; ring.
  - eexists. split; [now apply rotationMatrix_rodrigues |].
    cbv [rodrigues np.matvec np.dot map]. entrywise; field; exact Hn.
Qed.

Lemma rodrigues_dot (s c a b d u0 u1 u2 v0 v1 v2 : R) :
  s * s + c * c = 1 ->
  a * a + b * b + d * d = 1 ->
  np.dot (np.matvec (rodrigues s c a b d) [u0; u1; u2])
         (np.matvec (rodrigues s c a b d) [v0; v1; v2])
  = np.dot [u0; u1; u2] [v0; v1; v2].
Proof.
  intros Ht Hu. cbv [rodrigues np.matvec np.dot map]. nsatz.
Qed.

(** The rotation keeps the dot product of any two 3-vectors, so it keeps the
    angle between them. *)
Theorem rotationMatrix_keeps_dot (hx hy hz : R) :
  exists Rm : matrix,
    rotationMatrix [hx; hy; hz] = Ok Rm /\
    forall u0 u1 u2 v0 v1 v2 : R,
      np.dot (np.matvec Rm [u0; u1; u2]) (np.matvec Rm [v0; v1; v2])
      = np.dot [u0; u1; u2] [v0; v1; v2].
Proof.
  destruct (Req_dec_T (length [hx; hy; hz]) 0) as [H0 | Hn].
  - exists (np.identity 3). split; [now apply rotationMatrix_zero_length |].
    intros. cbv [np.matvec np.dot np.identity np.row_of seq map Nat.eqb]. ring.
  - eexists. split; [now apply rotationMatrix_rodrigues |].
    intros. apply rodrigues_dot; [apply trig_unit | now apply pole_unit].
Qed.

(** Adding whole turns to the angle changes nothing: the vector [h] stretched
    so that its length grows by [2 k pi] has the rotation matrix of [h]. *)
Theorem rotationMatrix_whole_turns (k : Z) (hx hy hz : R) :
  length [hx; hy; hz] <> 0 ->
  rotationMatrix
    (np.vscale (1 + 2 * PI * IZR k / length [hx; hy; hz]) [hx; hy; hz])
  = rotationMatrix [hx; hy; hz].
Proof.
  intros Hn. rewrite rotationMatrix_scaled by exact Hn.
  rewrite rotationMatrix_rodrigues by exact Hn.
  set (L := length [hx; hy; hz]) in *.
  replace ((1 + 2 * PI * IZR k / L) * L) with (L + 2 * PI * IZR k)
    by (field; exact Hn).
  destruct (sin_cos_period_Z L k) as [-> ->]. reflexivity.
Qed.

Lemma length_1_0_0 : length [1; 0; 0] = 1.
Proof. rewrite length_triple. apply sqrt_lem_1; lra. Qed.

Lemma rotationMatrix_whole_turns_witness :
  length [1; 0; 0] <> 0 /\
  rotationMatrix (np.vscale (1 + 2 * PI * 1 / length [1; 0; 0]) [1; 0; 0])
  = rotationMatrix [1; 0; 0].
Proof.
  assert (H : length [1; 0; 0] <> 0) by (rewrite length_1_0_0; lra).
  split; [exact H | exact (rotationMatrix_whole_turns 1 1 0 0 H)].
Defined.

(** ** The rotation vector of a matrix *)

(** The rotation of a vector of length 0 is the identity matrix, whose
    antisymmetric part is the zero vector: [hVector] divides it by its zero
    length and returns NaN, not the zero vector it came from. *)
Theorem hVector_degenerate (hx hy hz : R) :
  length [hx; hy; hz] = 0 ->
  exists Rm : matrix,
    rotationMatrix [hx; hy; hz] = Ok Rm /\ hVector Rm = AllNaN.
Proof.
  intros H0. exists (np.identity 3).
  split; [now apply rotationMatrix_zero_length | apply hVector_identity].
Qed.

Lemma length_0_0_0 : length [0; 0; 0] = 0.
Proof.
  rewrite length_triple.
  replace (0 * 0 + 0 * 0 + 0 * 0) with 0 by ring. apply sqrt_0.
Qed.

Lemma hVector_degenerate_witness :
  length [0; 0; 0] = 0 /\
  exists Rm : matrix,
    rotationMatrix [0; 0; 0] = Ok Rm /\ hVector Rm = AllNaN.
Proof.
  split; [exact length_0_0_0 | exact (hVector_degenerate 0 0 0 length_0_0_0)].
Defined.

Lemma item2_raise (A : matrix) (i j : nat) (e : exn) :
  np.item2 A i j = Raise e -> e = IndexError.
Proof.
  unfold np.item2, np.item.
  destruct (nth_error A i) as [r |]; [destruct (nth_error r j) |];
    intros H; try discriminate; now injection H as <-.
Qed.

Lemma item2_not_nan (A : matrix) (i j : nat) : np.item2 A i j <> AllNaN.
Proof.
  unfold np.item2, np.item.
  destruct (nth_error A i) as [r |]; [destruct (nth_error r j) |];
    discriminate.
Qed.

(** Whatever the matrix, a vector that [hVector] returns has for its length
    the angle [arccos ((trace R - 1) / 2)], between 0 and pi; the only
    exception it raises is the IndexError of an entry that is missing. *)
Theorem hVector_length_is_angle (Rm : matrix) :
  match hVector Rm with
  | Ok v => length v = acos ((np.trace Rm - 1) / 2) /\ 0 <= length v <= PI
  | Raise e => e = IndexError
  | AllNaN => True
  end.
Proof.
  unfold hVector.
  destruct (np.item2 Rm 2 1) as [r21 | e |] eqn:E21; cbn [bind];
    [| exact (item2_raise _ _ _ _ E21) | exact I].
  destruct (np.item2 Rm 1 2) as [r12 | e |] eqn:E12; cbn [bind];
    [| exact (item2_raise _ _ _ _ E12) | exact I].
  destruct (np.item2 Rm 0 2) as [r02 | e |] eqn:E02; cbn [bind];
    [| exact (item2_raise _ _ _ _ E02) | exact I].
  destruct (np.item2 Rm 2 0) as [r20 | e |] eqn:E20; cbn [bind];
    [| exact (item2_raise _ _ _ _ E20) | exact I].
  destruct (np.item2 Rm 1 0) as [r10 | e |] eqn:E10; cbn [bind];
    [| exact (item2_raise _ _ _ _ E10) | exact I].
  destruct (np.item2 Rm 0 1) as [r01 | e |] eqn:E01; cbn [bind];
    [| exact (item2_raise _ _ _ _ E01) | exact I].
  cbv zeta.
  destruct (Rlt_dec ((np.trace Rm - 1) / 2) (-1)) as [_ | _]; [exact I |].
  destruct (Rlt_dec 1 ((np.trace Rm - 1) / 2)) as [_ | _]; [exact I |].
  set (v := [r21 - r12; r02 - r20; r10 - r01]).
  destruct (Req_dec_T (length v) 0) as [_ | Hn]; [exact I |].
  pose proof (acos_bound ((np.trace Rm - 1) / 2)) as Hb.
  rewrite length_vscale_abs, (length_vdiv_self v Hn), Rmult_1_r.
  rewrite Rabs_right by lra. split; [reflexivity | exact Hb].
Qed.

(** The rotation vector of the transposed matrix is the opposite of the
    rotation vector of the matrix, for every 3x3 matrix. *)
Theorem hVector_transpose (r00 r01 r02 r10 r11 r12 r20 r21 r22 : R) :
  hVector (np.transpose [[r00; r01; r02]; [r10; r11; r12]; [r20; r21; r22]])
  = (v <- hVector [[r00; r01; r02]; [r10; r11; r12]; [r20; r21; r22]] ;;
     Ok (np.vneg v)).
Proof.
  cbv [np.transpose np.ncols np.col hd List.length seq map nth].
  unfold hVector.
  cbv [np.item2 np.item nth_error bind np.trace np.diagonal fold_right].
  assert (Lv : length [r12 - r21; r20 - r02; r01 - r10]
               = length [r21 - r12; r02 - r20; r10 - r01]).
  { rewrite !length_triple. f_equal. ring. }
  rewrite Lv.
  destruct (Rlt_dec _ (-1)) as [_ | _]; [reflexivity |].
  destruct (Rlt_dec 1 _) as [_ | _]; [reflexivity |].
  destruct (Req_dec_T _ 0) as [_ | Hn]; [reflexivity |].
  cbn [bind]. f_equal. cbv [np.vneg np.vscale np.vdiv map].
  entrywise; field; exact Hn.
Qed.

(** ** The segments of a file that ends with a marker *)

Lemma strip_spaces (l : list ascii) :
  forallb str.isspace l = true -> str.lstrip l = [].
Proof.
  induction l as [| c l IH]; cbn [forallb str.lstrip]; [reflexivity |].
  intros H. apply andb_prop in H as [Hc Hl]. rewrite Hc. now apply IH.
Qed.

Section ReadGMTxyBlocks.

Variable float : string -> result R.

Lemma loop_body_invariant (st : loop_state) (line : string) :
  loop_invariant st ->
  match loop_body float st line with
  | Ok st' => loop_invariant st'
  | _ => True
  end.
Proof.
  intros [Hxy Hf]. unfold loop_body.
  destruct (str.item (str.split (str.strip line)) 0) as [w0 | e |];
    cbn [bind]; try exact I.
  destruct (String.eqb w0 ">").
  - split; [reflexivity |]. cbn [feature].
    destruct (x st) as [| x0 xs] eqn:Ex; [exact Hf |].
    apply Forall_app. split; [exact Hf |]. constructor; [| constructor].
    exists (x0 :: xs), (y st). repeat split; [exact Hxy | discriminate].
  - destruct (float w0) as [x0 | e |]; cbn [bind]; try exact I.
    destruct (str.item (str.split (str.strip line)) 1) as [w1 | e |];
      cbn [bind]; try exact I.
    destruct (float w1) as [y0 | e |]; cbn [bind]; try exact I.
    split; [| exact Hf]. cbn [x y].
    rewrite !length_app. cbn [List.length]. now rewrite Hxy.
Qed.

Lemma loop_keeps_invariant (data : list string) :
  forall st, loop_invariant st ->
  match loop float st data with
  | Ok st' => loop_invariant st'
  | _ => True
  end.
Proof.
  induction data as [| line data IH]; intros st Hst; [exact Hst |].
  cbn [loop]. pose proof (loop_body_invariant st line Hst) as Hb.
  destruct (loop_body float st line) as [st' | e |]; cbn [bind];
    [now apply IH | exact I | exact I].
Qed.

Lemma loop_body_reads (st : loop_state) (line : string) (p : R * R) :
  reads float line p ->
  loop_body float st line =
    Ok (mkState (feature st) (x st ++ [fst p]) (y st ++ [snd p])).
Proof.
  intros (w0 & w1 & H0 & Hne & Hx & H1 & Hy). unfold loop_body.
  rewrite H0. cbn [bind]. rewrite Hne, Hx. cbn [bind]. rewrite H1.
  cbn [bind]. rewrite Hy. reflexivity.
Qed.

Lemma loop_reads (lps : list (string * (R * R))) :
  Forall (fun lp => reads float (fst lp) (snd lp)) lps ->
  forall st,
    loop float st (map fst lps) =
      Ok (mkState (feature st)
            (x st ++ map fst (map snd lps)) (y st ++ map snd (map snd lps))).
Proof.
  induction 1 as [| lp lps Hr _ IH]; intros st; cbn [map loop].
  - rewrite !app_nil_r. now destruct st.
  - rewrite (loop_body_reads st _ _ Hr). cbn [bind]. rewrite IH.
    cbn [feature x y]. now rewrite <- !app_assoc.
Qed.

Lemma loop_blocks (m_end : string) (blocks : list (block)) :
  marker_line m_end ->
  Forall (well_formed float) blocks ->
  forall st,
    loop float st (file_lines blocks ++ [m_end]) =
      Ok (mkState
            (feature st
               ++ match x st with [] => [] | _ => [[x st; y st]] end
               ++ segments blocks)
            [] []).
Proof.
  intros Hm. induction 1 as [| b blocks [Hb Hl] _ IH]; intros st.
  - cbn [file_lines flat_map app loop segments].
    rewrite (loop_body_marker float st m_end Hm). cbn [bind].
    rewrite app_nil_r. destruct (x st); [now rewrite app_nil_r | reflexivity].
  - cbn [file_lines flat_map segments]. unfold block_lines at 1.
    rewrite <- !app_assoc. cbn [app loop].
    rewrite (loop_body_marker float st (fst b) Hb). cbn [bind].
    rewrite loop_app, (loop_reads (snd b) Hl). cbn [bind feature x y app].
    fold (file_lines blocks). rewrite IH. cbn [feature x y].
    fold (segments blocks). f_equal. f_equal.
    assert (Hs : match map fst (map snd (snd b)) with
                 | [] => []
                 | _ :: _ =>
                     [[map fst (map snd (snd b)); map snd (map snd (snd b))]]
                 end = segment (map snd (snd b)))
      by (unfold segment; now destruct (map snd (snd b))).
    rewrite Hs. destruct (x st).
    + reflexivity.
    + now rewrite <- app_assoc.
Qed.

End ReadGMTxyBlocks.

(** Whatever [float] does, every segment [readGMTxy] returns is a pair of two
    lists of the same length, and is not empty. *)
Theorem readGMTxy_segments_well_shaped
    (float : string -> result R) (data : list string) :
  match readGMTxy float data with
  | Ok fs => Forall well_shaped fs
  | _ => True
  end.
Proof.
  unfold readGMTxy.
  assert (H0 : loop_invariant (mkState [] [] []))
    by (split; [reflexivity | constructor]).
  pose proof (loop_keeps_invariant float data _ H0) as H.
  destruct (loop float (mkState [] [] []) data) as [st | e |]; cbn [bind];
    [apply H | exact I | exact I].
Qed.

(** On a file made of blocks, each a marker line followed by the data lines
    of a segment, and closed by one more marker line, [readGMTxy] returns the
    segments of the blocks in order, the empty ones left out. *)
Theorem readGMTxy_closed_file
    (float : string -> result R) (blocks : list block) (m_end : string) :
  Forall (well_formed float) blocks ->
  marker_line m_end ->
  readGMTxy float (file_lines blocks ++ [m_end]) = Ok (segments blocks).
Proof.
  intros Hb Hm. unfold readGMTxy.
  rewrite (loop_blocks float m_end blocks Hm Hb). reflexivity.
Qed.

Lemma readGMTxy_closed_file_witness :
  Forall (well_formed float_digits)
    [((">" ++ newline)%string,
      [(("1 2" ++ newline)%string, (1, 2)); (("3 4" ++ newline)%string, (3, 4))]);
     ((">" ++ newline)%string, []);
     ((">" ++ newline)%string, [(("5 6" ++ newline)%string, (5, 6))])] /\
  marker_line (">" ++ newline)%string /\
  readGMTxy float_digits
    [(">" ++ newline)%string; ("1 2" ++ newline)%string; ("3 4" ++ newline)%string;
     (">" ++ newline)%string;
     (">" ++ newline)%string; ("5 6" ++ newline)%string;
     (">" ++ newline)%string]
  = Ok [[[1; 3]; [2; 4]]; [[5]; [6]]].
Proof.
  assert (Hm : marker_line (">" ++ newline)%string) by reflexivity.
  assert (Hr : forall (l : string) (p : R * R) (w0 w1 : string),
             str.split (str.strip l) = [w0; w1] ->
             String.eqb w0 ">" = false ->
             float_digits w0 = Ok (fst p) -> float_digits w1 = Ok (snd p) ->
             reads float_digits l p).
  { intros l p w0 w1 Hs Hne H0 H1. exists w0, w1. rewrite Hs.
    repeat split; assumption. }
  assert (Hb : Forall (well_formed float_digits)
    [((">" ++ newline)%string,
      [(("1 2" ++ newline)%string, (1, 2)); (("3 4" ++ newline)%string, (3, 4))]);
     ((">" ++ newline)%string, []);
     ((">" ++ newline)%string, [(("5 6" ++ newline)%string, (5, 6))])]).
  { repeat constructor; try exact Hm; cbn [fst snd].
    - now apply (Hr _ _ "1" "2")%string.
    - now apply (Hr _ _ "3" "4")%string.
    - now apply (Hr _ _ "5" "6")%string. }
  split; [exact Hb |]. split; [exact Hm |].
  exact (readGMTxy_closed_file float_digits _ _ Hb Hm).
Defined.

Lemma readGMTxy_ignores_last_segment_witness :
  Forall (data_line float_digits) [("1 2" ++ newline)%string] /\
  readGMTxy float_digits
    ([(">" ++ newline)%string; ("3 4" ++ newline)%string; (">" ++ newline)%string]
       ++ [("1 2" ++ newline)%string])
  = readGMTxy float_digits
      [(">" ++ newline)%string; ("3 4" ++ newline)%string; (">" ++ newline)%string].
Proof.
  assert (H : Forall (data_line float_digits) [("1 2" ++ newline)%string]).
  { constructor; [| constructor].
    exists "1"%string, "2"%string, 1, 2. repeat split; reflexivity. }
  split; [exact H |].
  exact (readGMTxy_ignores_last_segment float_digits _ _ H).
Defined.

Lemma split_spaces (l : string) :
  forallb str.isspace (list_ascii_of_string l) = true ->
  str.split (str.strip l) = [].
Proof.
  intros H. unfold str.strip. rewrite (strip_spaces _ H). reflexivity.
Qed.

(** A line of white space only, a blank line at the end of the file for
    one, has no first word: when the lines before it are read without an
    error, reading it raises IndexError, whatever follows. *)
Theorem readGMTxy_blank_line_raises
    (float : string -> result R) (a b : list string) (l : string)
    (st : loop_state) :
  loop float (mkState [] [] []) a = Ok st ->
  forallb str.isspace (list_ascii_of_string l) = true ->
  readGMTxy float (a ++ l :: b) = Raise IndexError.
Proof.
  intros Ha Hl. unfold readGMTxy. rewrite loop_app, Ha. cbn [bind loop].
  unfold loop_body. rewrite (split_spaces l Hl). reflexivity.
Qed.

Lemma readGMTxy_blank_line_raises_witness :
  loop float_digits (mkState [] [] [])
    [(">" ++ newline)%string; ("1 2" ++ newline)%string]
  = Ok (mkState [] [1] [2]) /\
  forallb str.isspace (list_ascii_of_string newline) = true /\
  readGMTxy float_digits
    ([(">" ++ newline)%string; ("1 2" ++ newline)%string] ++ newline :: [])
  = Raise IndexError.
Proof.
  assert (Ha : loop float_digits (mkState [] [] [])
                 [(">" ++ newline)%string; ("1 2" ++ newline)%string]
               = Ok (mkState [] [1] [2])) by reflexivity.
  assert (Hl : forallb str.isspace (list_ascii_of_string newline) = true)
    by reflexivity.
  split; [exact Ha |]. split; [exact Hl |].
  exact (readGMTxy_blank_line_raises float_digits _ [] newline _ Ha Hl).
Defined.

(** ** The great circle of the example script *)

Lemma positionVector_inv (v p : vec) :
  positionVector v = Ok p ->
  exists p0 p1 p2, p = [p0; p1; p2] /\ p0 * p0 + p1 * p1 + p2 * p2 = 1.
Proof.
  destruct v as [| lon [| lat v]]; try discriminate.
  cbv [positionVector np.item nth_error bind]. intros H. injection H as <-.
  do 3 eexists. split; [reflexivity | apply sphere_unit].
Qed.

Section TwoUnitVectors.

Variables p0 p1 p2 q0 q1 q2 : R.
Hypothesis p_unit : p0 * p0 + p1 * p1 + p2 * p2 = 1.
Hypothesis q_unit : q0 * q0 + q1 * q1 + q2 * q2 = 1.

Let d := np.dot [p0; p1; p2] [q0; q1; q2].

Lemma dot_unit_bound : -1 <= d <= 1.
Proof.
  unfold d. cbn [np.dot].
  pose proof (Rle_0_sqr (p0 - q0)). pose proof (Rle_0_sqr (p1 - q1)).
  pose proof (Rle_0_sqr (p2 - q2)). pose proof (Rle_0_sqr (p0 + q0)).
  pose proof (Rle_0_sqr (p1 + q1)). pose proof (Rle_0_sqr (p2 + q2)).
  unfold Rsqr in *. split; nra.
Qed.

(** The square of the length of the cross product. *)
Lemma cross_square :
  np.dot (np.cross [p0; p1; p2] [q0; q1; q2]) (np.cross [p0; p1; p2] [q0; q1; q2])
  = 1 - d * d.
Proof. unfold d. cbv [np.cross np.dot]. nsatz. Qed.

Lemma sum_square :
  np.dot (np.vadd [p0; p1; p2] [q0; q1; q2]) (np.vadd [p0; p1; p2] [q0; q1; q2])
  = 2 + 2 * d.
Proof. unfold d. cbv [np.vadd np.dot]. nsatz. Qed.

Section Pole.

Variables s k0 k1 k2 : R.
Hypothesis s_sin : s * s + d * d = 1.
Hypothesis s_pos : s <> 0.
Hypothesis k_pole :
  [k0; k1; k2] = np.vdiv (np.cross [p0; p1; p2] [q0; q1; q2]) s.

Lemma pole_components :
  k0 * s = p1 * q2 - p2 * q1 /\
  k1 * s = p2 * q0 - p0 * q2 /\
  k2 * s = p0 * q1 - p1 * q0.
Proof.
  cbv [np.vdiv np.cross map] in k_pole. injection k_pole as -> -> ->.
  repeat split; field; exact s_pos.
Qed.

Lemma cancel_square (e : R) : s * s * e = 0 -> e = 0.
Proof. intros H. assert (s * s <> 0) by nra. nra. Qed.

Lemma pole_is_unit : k0 * k0 + k1 * k1 + k2 * k2 = 1.
Proof.
  destruct pole_components as (H0 & H1 & H2). unfold d in s_sin.
  cbn [np.dot] in s_sin.
  apply Rminus_diag_uniq, cancel_square. nsatz.
Qed.

Lemma pole_perpendicular :
  np.dot [k0; k1; k2] [p0; p1; p2] = 0 /\
  np.dot [k0; k1; k2] [q0; q1; q2] = 0.
Proof.
  destruct pole_components as (H0 & H1 & H2). cbn [np.dot].
  split; apply cancel_square; nsatz.
Qed.

(** The rotation about the pole by the angle between the two vectors takes
    the first to the second. *)
Lemma pole_rotation :
  np.matvec (rodrigues s d k0 k1 k2) [p0; p1; p2] = [q0; q1; q2].
Proof.
  destruct pole_components as (H0 & H1 & H2). unfold d in *.
  cbn [np.dot] in s_sin.
  cbv [rodrigues np.matvec np.dot map].
  entrywise; apply Rminus_diag_uniq, cancel_square; nsatz.
Qed.

(** A rotation about the pole by any angle keeps the vector in the plane of
    the great circle, at that angle from where it started. *)
Lemma pole_rotation_partial (st ct : R) :
  st * st + ct * ct = 1 ->
  np.dot [k0; k1; k2] (np.matvec (rodrigues st ct k0 k1 k2) [p0; p1; p2]) = 0 /\
  np.dot [p0; p1; p2] (np.matvec (rodrigues st ct k0 k1 k2) [p0; p1; p2]) = ct.
Proof.
  intros Ht. destruct pole_components as (H0 & H1 & H2). unfold d in *.
  cbn [np.dot] in s_sin.
  cbv [rodrigues np.matvec np.dot map].
  split; apply Rminus_diag_uniq, cancel_square; nsatz.
Qed.

End Pole.

Section Midpoint.

Variables N m0 m1 m2 : R.
Hypothesis N_length : N * N = 2 + 2 * d.
Hypothesis N_pos : N <> 0.
Hypothesis m_mid : [m0; m1; m2] = np.vdiv (np.vadd [p0; p1; p2] [q0; q1; q2]) N.

Lemma midpoint_components :
  m0 * N = p0 + q0 /\ m1 * N = p1 + q1 /\ m2 * N = p2 + q2.
Proof.
  cbv [np.vdiv np.vadd map] in m_mid. injection m_mid as -> -> ->.
  repeat split; field; exact N_pos.
Qed.

Lemma cancel_square_N (e : R) : N * N * e = 0 -> e = 0.
Proof. intros H. assert (N * N <> 0) by nra. nra. Qed.

Lemma midpoint_is_unit : m0 * m0 + m1 * m1 + m2 * m2 = 1.
Proof.
  destruct midpoint_components as (H0 & H1 & H2). unfold d in N_length.
  cbn [np.dot] in N_length.
  apply Rminus_diag_uniq, cancel_square_N. nsatz.
Qed.

Lemma midpoint_equidistant :
  np.dot [m0; m1; m2] [p0; p1; p2] = np.dot [m0; m1; m2] [q0; q1; q2].
Proof.
  destruct midpoint_components as (H0 & H1 & H2). unfold d in N_length.
  cbn [np.dot] in *.
  apply Rminus_diag_uniq, cancel_square_N. nsatz.
Qed.

(** The half turn about the midpoint exchanges the two vectors. *)
Lemma midpoint_half_turn :
  np.matvec (rodrigues 0 (-1) m0 m1 m2) [p0; p1; p2] = [q0; q1; q2].
Proof.
  destruct midpoint_components as (H0 & H1 & H2). unfold d in N_length.
  cbn [np.dot] in N_length.
  cbv [rodrigues np.matvec np.dot map].
  entrywise; apply Rminus_diag_uniq, cancel_square_N; nsatz.
Qed.

End Midpoint.

End TwoUnitVectors.

(** A rotation keeps the component of a vector along its axis. *)
Lemma rodrigues_axis_component (s c a b e u0 u1 u2 : R) :
  np.dot [a; b; e] (np.matvec (rodrigues s c a b e) [u0; u1; u2])
  = np.dot [a; b; e] [u0; u1; u2].
Proof. cbv [rodrigues np.matvec np.dot map]. ring. Qed.

Lemma rotationMatrix_unit_axis (t k0 k1 k2 : R) :
  k0 * k0 + k1 * k1 + k2 * k2 = 1 ->
  rotationMatrix (np.vscale t [k0; k1; k2])
  = Ok (rodrigues (sin t) (cos t) k0 k1 k2).
Proof.
  intros Hk.
  assert (L : length [k0; k1; k2] = 1)
    by (rewrite length_triple, Hk; apply sqrt_1).
  rewrite rotationMatrix_scaled by (rewrite L; lra).
  now rewrite L, Rmult_1_r, !Rdiv_1_r.
Qed.

Lemma vscale_vscale (t a : R) (v : vec) :
  np.vscale t (np.vscale a v) = np.vscale (t * a) v.
Proof.
  unfold np.vscale. rewrite map_map. apply map_ext. intros e. ring.
Qed.

Lemma vscale_one (v : vec) : np.vscale 1 v = v.
Proof.
  unfold np.vscale. rewrite <- (map_id v) at 2. apply map_ext. intros e. ring.
Qed.

Lemma vdiv_triple (v : vec) (c : R) :
  List.length v = 3%nat -> exists k0 k1 k2, np.vdiv v c = [k0; k1; k2].
Proof.
  destruct v as [| a [| b [| e [| f v]]]]; try discriminate. intros _.
  now exists (a / c), (b / c), (e / c).
Qed.

Section ScriptFacts.

Variables lonlatA lonlatW : vec.
Variables p0 p1 p2 q0 q1 q2 : R.
Hypothesis HA : positionVector lonlatA = Ok [p0; p1; p2].
Hypothesis HW : positionVector lonlatW = Ok [q0; q1; q2].

Let d := np.dot [p0; p1; p2] [q0; q1; q2].

Lemma script_units :
  p0 * p0 + p1 * p1 + p2 * p2 = 1 /\ q0 * q0 + q1 * q1 + q2 * q2 = 1.
Proof.
  destruct (positionVector_inv _ _ HA) as (a0 & a1 & a2 & Ea & Ua).
  destruct (positionVector_inv _ _ HW) as (b0 & b1 & b2 & Eb & Ub).
  injection Ea as -> -> ->. injection Eb as -> -> ->. now split.
Qed.

Lemma script_angle_value :
  example.angle lonlatA lonlatW = Ok (acos d).
Proof.
  destruct script_units as [Up Uq].
  pose proof (dot_unit_bound p0 p1 p2 q0 q1 q2 Up Uq) as Hb.
  cbv zeta in Hb. fold d in Hb.
  unfold example.angle, example.pAuckland, example.pWellington.
  rewrite HA, HW. cbn [bind]. unfold example.arccos. fold d.
  destruct (Rlt_dec d (-1)) as [H | _]; [lra |].
  destruct (Rlt_dec 1 d) as [H | _]; [lra | reflexivity].
Qed.

Hypothesis not_parallel : -1 < d < 1.

Lemma script_sine :
  0 < sin (acos d) /\ sin (acos d) * sin (acos d) + d * d = 1 /\
  cos (acos d) = d /\ 0 < acos d < PI.
Proof.
  pose proof (acos_bound_lt d not_parallel) as Ha.
  assert (Hs : 0 < sin (acos d)) by (apply sin_gt_0; lra).
  assert (Hc : cos (acos d) = d) by (apply cos_acos; lra).
  pose proof (trig_unit (acos d)) as Ht. rewrite Hc in Ht.
  repeat split; try assumption; lra.
Qed.

Lemma script_pole_value :
  example.pole lonlatA lonlatW =
    Ok (np.vdiv (np.cross [p0; p1; p2] [q0; q1; q2]) (sin (acos d))).
Proof.
  destruct script_sine as (Hs & _).
  unfold example.pole. rewrite script_angle_value.
  unfold example.pAuckland, example.pWellington. rewrite HA, HW.
  cbn [bind]. fold d.
  destruct (Req_dec_T (sin (acos d)) 0) as [e | _]; [lra | reflexivity].
Qed.

Lemma script_h_value :
  example.h lonlatA lonlatW =
    Ok (np.vscale (acos d)
          (np.vdiv (np.cross [p0; p1; p2] [q0; q1; q2]) (sin (acos d)))).
Proof.
  unfold example.h. now rewrite script_angle_value, script_pole_value.
Qed.

Lemma script_sum_length :
  length (np.vadd [p0; p1; p2] [q0; q1; q2])
  * length (np.vadd [p0; p1; p2] [q0; q1; q2]) = 2 + 2 * d /\
  length (np.vadd [p0; p1; p2] [q0; q1; q2]) <> 0.
Proof.
  destruct script_units as [Up Uq].
  pose proof (length_square (np.vadd [p0; p1; p2] [q0; q1; q2])) as Hs.
  pose proof (sum_square p0 p1 p2 q0 q1 q2 Up Uq) as Hq. cbv zeta in Hq.
  rewrite Hq in Hs. fold d in Hs.
  split; [exact Hs |]. intros H0. rewrite H0 in Hs. lra.
Qed.

Lemma script_midpoint_value :
  example.midpoint lonlatA lonlatW =
    Ok (np.vdiv (np.vadd [p0; p1; p2] [q0; q1; q2])
          (length (np.vadd [p0; p1; p2] [q0; q1; q2]))).
Proof.
  destruct script_sum_length as [_ Hn].
  unfold example.midpoint, example.pAuckland, example.pWellington.
  rewrite HA, HW. cbn [bind].
  destruct (Req_dec_T _ 0) as [e | _]; [contradiction | reflexivity].
Qed.

End ScriptFacts.

Section ScriptTheorems.

Variables lonlatA lonlatW pA pW : vec.
Hypothesis HA : positionVector lonlatA = Ok pA.
Hypothesis HW : positionVector lonlatW = Ok pW.
Hypothesis not_parallel : -1 < np.dot pA pW < 1.

(** The pole of the great circle is a unit vector perpendicular to both
    position vectors, and [h] is the pole times the angle between them. *)
Lemma script_pole :
  exists k : vec,
    example.pole lonlatA lonlatW = Ok k /\
    length k = 1 /\ np.dot k pA = 0 /\ np.dot k pW = 0 /\
    example.h lonlatA lonlatW = Ok (np.vscale (acos (np.dot pA pW)) k) /\
    length (np.vscale (acos (np.dot pA pW)) k) = acos (np.dot pA pW).
Proof.
  destruct (positionVector_inv _ _ HA) as (p0 & p1 & p2 & -> & Up).
  destruct (positionVector_inv _ _ HW) as (q0 & q1 & q2 & -> & Uq).
  destruct (script_sine p0 p1 p2 q0 q1 q2 not_parallel)
    as (Hs & Hsd & Hc & Ha).
  assert (Ek : exists k0 k1 k2,
             [k0; k1; k2]
             = np.vdiv (np.cross [p0; p1; p2] [q0; q1; q2])
                 (sin (acos (np.dot [p0; p1; p2] [q0; q1; q2]))))
    by (do 3 eexists; reflexivity).
  destruct Ek as (k0 & k1 & k2 & Ek).
  assert (Hn : sin (acos (np.dot [p0; p1; p2] [q0; q1; q2])) <> 0) by lra.
  pose proof (pole_is_unit p0 p1 p2 q0 q1 q2 Up Uq _ k0 k1 k2 Hsd Hn Ek) as Uk.
  pose proof (pole_perpendicular p0 p1 p2 q0 q1 q2 Up Uq _ k0 k1 k2 Hsd Hn Ek)
    as [Kp Kq].
  exists [k0; k1; k2].
  rewrite (script_pole_value _ _ _ _ _ _ _ _ HA HW not_parallel).
  rewrite (script_h_value _ _ _ _ _ _ _ _ HA HW not_parallel).
  rewrite <- Ek.
  assert (Lk : length [k0; k1; k2] = 1)
    by (rewrite length_triple, Uk; apply sqrt_1).
  repeat split; try assumption.
  rewrite length_vscale_abs, Lk, Rmult_1_r. apply Rabs_right. lra.
Qed.

(** The rotation of [h] takes the first position vector to the second. *)
Lemma script_rotated_to_target :
  example.rotatedAuckland lonlatA lonlatW = Ok pW.
Proof.
  destruct (positionVector_inv _ _ HA) as (p0 & p1 & p2 & -> & Up).
  destruct (positionVector_inv _ _ HW) as (q0 & q1 & q2 & -> & Uq).
  destruct (script_sine p0 p1 p2 q0 q1 q2 not_parallel)
    as (Hs & Hsd & Hc & Ha).
  assert (Ek : exists k0 k1 k2,
             [k0; k1; k2]
             = np.vdiv (np.cross [p0; p1; p2] [q0; q1; q2])
                 (sin (acos (np.dot [p0; p1; p2] [q0; q1; q2]))))
    by (do 3 eexists; reflexivity).
  destruct Ek as (k0 & k1 & k2 & Ek).
  assert (Hn : sin (acos (np.dot [p0; p1; p2] [q0; q1; q2])) <> 0) by lra.
  pose proof (pole_is_unit p0 p1 p2 q0 q1 q2 Up Uq _ k0 k1 k2 Hsd Hn Ek) as Uk.
  unfold example.rotatedAuckland, example.pAuckland. rewrite HA. cbn [bind].
  rewrite (script_h_value _ _ _ _ _ _ _ _ HA HW not_parallel). cbn [bind].
  rewrite <- Ek. rewrite (rotationMatrix_unit_axis _ _ _ _ Uk). cbn [bind].
  rewrite Hc. f_equal.
  exact (pole_rotation p0 p1 p2 q0 q1 q2 Up Uq _ k0 k1 k2 Hsd Hn Ek).
Qed.

(** A point of the great-circle path: the rotation of a fraction of [h] gives
    a unit vector in the plane of the great circle, at that fraction of the
    angle from the first position vector. *)
Lemma script_rotated_fraction (proportion : R) :
  exists k v : vec,
    example.pole lonlatA lonlatW = Ok k /\
    example.rotated lonlatA lonlatW proportion = Ok v /\
    length v = 1 /\
    np.dot k v = 0 /\
    np.dot pA v = cos (proportion * acos (np.dot pA pW)).
Proof.
  destruct (positionVector_inv _ _ HA) as (p0 & p1 & p2 & -> & Up).
  destruct (positionVector_inv _ _ HW) as (q0 & q1 & q2 & -> & Uq).
  destruct (script_sine p0 p1 p2 q0 q1 q2 not_parallel)
    as (Hs & Hsd & Hc & Ha).
  assert (Ek : exists k0 k1 k2,
             [k0; k1; k2]
             = np.vdiv (np.cross [p0; p1; p2] [q0; q1; q2])
                 (sin (acos (np.dot [p0; p1; p2] [q0; q1; q2]))))
    by (do 3 eexists; reflexivity).
  destruct Ek as (k0 & k1 & k2 & Ek).
  assert (Hn : sin (acos (np.dot [p0; p1; p2] [q0; q1; q2])) <> 0) by lra.
  pose proof (pole_is_unit p0 p1 p2 q0 q1 q2 Up Uq _ k0 k1 k2 Hsd Hn Ek) as Uk.
  set (a := acos (np.dot [p0; p1; p2] [q0; q1; q2])) in *.
  pose proof (trig_unit (proportion * a)) as Ht.
  destruct (pole_rotation_partial p0 p1 p2 q0 q1 q2 Up Uq _ k0 k1 k2
              Hsd Hn Ek _ _ Ht) as [Hk Hp].
  exists [k0; k1; k2]. eexists.
  split; [rewrite Ek; exact (script_pole_value _ _ _ _ _ _ _ _ HA HW not_parallel) |].
  split.
  - unfold example.rotated, example.pAuckland. rewrite HA. cbn [bind].
    rewrite (script_h_value _ _ _ _ _ _ _ _ HA HW not_parallel). cbn [bind].
    fold a. rewrite <- Ek, vscale_vscale.
    rewrite (rotationMatrix_unit_axis _ _ _ _ Uk). cbn [bind]. reflexivity.
  - split; [| split; assumption].
    rewrite <- (sqrt_1). unfold length. f_equal.
    rewrite (rodrigues_isometry _ _ _ _ _ Ht Uk). cbn [np.dot]. lra.
Qed.

End ScriptTheorems.

Section ScriptMidpoint.

Variables lonlatA lonlatW pA pW : vec.
Hypothesis HA : positionVector lonlatA = Ok pA.
Hypothesis HW : positionVector lonlatW = Ok pW.
Hypothesis not_opposite : -1 < np.dot pA pW.

Lemma script_midpoint_setup :
  exists p0 p1 p2 q0 q1 q2 N m0 m1 m2,
    pA = [p0; p1; p2] /\ pW = [q0; q1; q2] /\
    p0 * p0 + p1 * p1 + p2 * p2 = 1 /\ q0 * q0 + q1 * q1 + q2 * q2 = 1 /\
    N * N = 2 + 2 * np.dot [p0; p1; p2] [q0; q1; q2] /\ N <> 0 /\
    [m0; m1; m2] = np.vdiv (np.vadd [p0; p1; p2] [q0; q1; q2]) N /\
    example.midpoint lonlatA lonlatW = Ok [m0; m1; m2].
Proof.
  destruct (positionVector_inv _ _ HA) as (p0 & p1 & p2 & -> & Up).
  destruct (positionVector_inv _ _ HW) as (q0 & q1 & q2 & -> & Uq).
  pose proof (length_square (np.vadd [p0; p1; p2] [q0; q1; q2])) as Hs.
  pose proof (sum_square p0 p1 p2 q0 q1 q2 Up Uq) as Hq. cbv zeta in Hq.
  rewrite Hq in Hs.
  set (N := length (np.vadd [p0; p1; p2] [q0; q1; q2])) in *.
  assert (Hn : N <> 0) by (intros H0; rewrite H0 in Hs; lra).
  exists p0, p1, p2, q0, q1, q2, N.
  do 3 eexists. repeat split; try eassumption; try reflexivity.
  unfold example.midpoint, example.pAuckland, example.pWellington.
  rewrite HA, HW. cbn [bind]. fold N.
  destruct (Req_dec_T N 0) as [e | _]; [contradiction | reflexivity].
Qed.

(** The midpoint is a unit vector at the same angle from both position
    vectors. *)
Lemma script_midpoint :
  exists m : vec,
    example.midpoint lonlatA lonlatW = Ok m /\
    length m = 1 /\ np.dot m pA = np.dot m pW.
Proof.
  destruct script_midpoint_setup
    as (p0 & p1 & p2 & q0 & q1 & q2 & N & m0 & m1 & m2
        & -> & -> & Up & Uq & HN & Hn & Em & Hm).
  exists [m0; m1; m2]. split; [exact Hm |]. split.
  - rewrite length_triple,
      (midpoint_is_unit p0 p1 p2 q0 q1 q2 Up Uq N m0 m1 m2 HN Hn Em).
    apply sqrt_1.
  - exact (midpoint_equidistant p0 p1 p2 q0 q1 q2 Up Uq N m0 m1 m2 HN Hn Em).
Qed.

(** A point of the path about the midpoint: a unit vector, as far from the
    midpoint as the first position vector is. *)
Lemma script_small_circle (i : nat) :
  exists m v : vec,
    example.midpoint lonlatA lonlatW = Ok m /\
    example.rotatedPositionVector lonlatA lonlatW i = Ok v /\
    length v = 1 /\ np.dot m v = np.dot m pA.
Proof.
  destruct script_midpoint_setup
    as (p0 & p1 & p2 & q0 & q1 & q2 & N & m0 & m1 & m2
        & -> & -> & Up & Uq & HN & Hn & Em & Hm).
  pose proof (midpoint_is_unit p0 p1 p2 q0 q1 q2 Up Uq N m0 m1 m2 HN Hn Em)
    as Um.
  exists [m0; m1; m2]. eexists. split; [exact Hm |]. split.
  - unfold example.rotatedPositionVector, example.pAuckland, example.hNew.
    rewrite HA, Hm. cbn [bind]. rewrite vscale_vscale.
    rewrite (rotationMatrix_unit_axis _ _ _ _ Um). cbn [bind]. reflexivity.
  - split.
    + rewrite <- sqrt_1. unfold length. f_equal.
      rewrite (rodrigues_isometry _ _ _ _ _ (trig_unit _) Um).
      cbn [np.dot]. lra.
    + apply rodrigues_axis_component.
Qed.

(** The path about the midpoint starts at the first position vector, and the
    half turn, the step [i = n] that the loop stops short of, reaches the
    second. *)
Lemma script_half_turn :
  example.rotatedPositionVector lonlatA lonlatW 0 = Ok pA /\
  example.rotatedPositionVector lonlatA lonlatW example.n = Ok pW.
Proof.
  destruct script_midpoint_setup
    as (p0 & p1 & p2 & q0 & q1 & q2 & N & m0 & m1 & m2
        & -> & -> & Up & Uq & HN & Hn & Em & Hm).
  pose proof (midpoint_is_unit p0 p1 p2 q0 q1 q2 Up Uq N m0 m1 m2 HN Hn Em)
    as Um.
  unfold example.rotatedPositionVector, example.pAuckland, example.hNew.
  rewrite HA, Hm. cbn [bind]. rewrite !vscale_vscale.
  rewrite !(rotationMatrix_unit_axis _ _ _ _ Um). cbn [bind]. split.
  - replace (INR 0 / INR example.n * PI) with 0 by (cbn [INR]; field;
      apply not_0_INR; discriminate).
    rewrite sin_0, cos_0, rodrigues_identity. f_equal.
    cbv [np.matvec np.dot np.identity np.row_of seq map Nat.eqb].
    entrywise; ring.
  - replace (INR example.n / INR example.n * PI) with PI
      by (field; apply not_0_INR; discriminate).
    rewrite sin_PI, cos_PI. f_equal.
    exact (midpoint_half_turn p0 p1 p2 q0 q1 q2 Up Uq N m0 m1 m2 HN Hn Em).
Qed.

End ScriptMidpoint.

(** ** The two points of the script *)

Lemma radians_inj (a b : R) : np.radians a = np.radians b -> a = b.
Proof.
  unfold np.radians. intros H. pose proof PI_RGT_0.
  assert (a * PI = b * PI) by lra. nra.
Qed.

(** Two points whose latitudes are neither equal nor opposite have position
    vectors that are neither equal nor opposite. *)
Lemma distinct_latitudes (lonA latA lonW latW : R) (pA pW : vec) :
  -90 <= latA <= 90 -> -90 <= latW <= 90 ->
  latA <> latW -> latA <> - latW ->
  positionVector [lonA; latA] = Ok pA ->
  positionVector [lonW; latW] = Ok pW ->
  -1 < np.dot pA pW < 1.
Proof.
  intros HlA HlW Hne Hno HA HW.
  rewrite positionVector_pair in HA, HW.
  injection HA as <-. injection HW as <-.
  pose proof (sphere_unit (np.radians lonA) (np.radians latA)) as Up.
  pose proof (sphere_unit (np.radians lonW) (np.radians latW)) as Uq.
  pose proof (radians_quarter latA HlA) as QA.
  pose proof (radians_quarter latW HlW) as QW.
  set (p0 := cos (np.radians lonA) * cos (np.radians latA)) in *.
  set (p1 := sin (np.radians lonA) * cos (np.radians latA)) in *.
  set (q0 := cos (np.radians lonW) * cos (np.radians latW)) in *.
  set (q1 := sin (np.radians lonW) * cos (np.radians latW)) in *.
  pose proof (dot_unit_bound p0 p1 _ q0 q1 _ Up Uq) as Hb. cbv zeta in Hb.
  cbn [np.dot] in *.
  assert (N1 : p0 * q0 + (p1 * q1 + (sin (np.radians latA) * sin (np.radians latW) + 0)) <> 1).
  { intros E.
    assert (Hz : sin (np.radians latA) = sin (np.radians latW)).
    { pose proof (Rle_0_sqr (p0 - q0)). pose proof (Rle_0_sqr (p1 - q1)).
      pose proof (Rle_0_sqr (sin (np.radians latA) - sin (np.radians latW))).
      unfold Rsqr in *. nra. }
    apply sin_inj in Hz; [| assumption | assumption].
    apply Hne, radians_inj, Hz. }
  assert (N2 : p0 * q0 + (p1 * q1 + (sin (np.radians latA) * sin (np.radians latW) + 0)) <> -1).
  { intros E.
    assert (Hz : sin (np.radians latA) = sin (- np.radians latW)).
    { rewrite sin_neg.
      pose proof (Rle_0_sqr (p0 + q0)). pose proof (Rle_0_sqr (p1 + q1)).
      pose proof (Rle_0_sqr (sin (np.radians latA) + sin (np.radians latW))).
      unfold Rsqr in *. nra. }
    apply sin_inj in Hz; [| assumption | lra].
    apply Hno, radians_inj. rewrite Hz. unfold np.radians. field. }
  lra.
Qed.

Lemma script_points :
  exists pA pW : vec,
    positionVector example.Auckland = Ok pA /\
    positionVector example.Wellington = Ok pW /\
    -1 < np.dot pA pW < 1.
Proof.
  unfold example.Auckland, example.Wellington.
  eexists. eexists.
  split; [apply positionVector_pair |]. split; [apply positionVector_pair |].
  eapply distinct_latitudes; try apply positionVector_pair; lra.
Qed.

Lemma script_pole_witness :
  exists pA pW : vec,
    positionVector example.Auckland = Ok pA /\
    positionVector example.Wellington = Ok pW /\
    -1 < np.dot pA pW < 1 /\
    exists k : vec,
      example.pole example.Auckland example.Wellington = Ok k /\
      length k = 1 /\ np.dot k pA = 0 /\ np.dot k pW = 0 /\
      example.h example.Auckland example.Wellington
      = Ok (np.vscale (acos (np.dot pA pW)) k) /\
      length (np.vscale (acos (np.dot pA pW)) k) = acos (np.dot pA pW).
Proof.
  destruct script_points as (pA & pW & HA & HW & Hd).
  exists pA, pW. split; [exact HA |]. split; [exact HW |]. split; [exact Hd |].
  exact (script_pole _ _ _ _ HA HW Hd).
Defined.

Lemma script_rotated_to_target_witness :
  exists pA pW : vec,
    positionVector example.Auckland = Ok pA /\
    positionVector example.Wellington = Ok pW /\
    -1 < np.dot pA pW < 1 /\
    example.rotatedAuckland example.Auckland example.Wellington = Ok pW.
Proof.
  destruct script_points as (pA & pW & HA & HW & Hd).
  exists pA, pW. split; [exact HA |]. split; [exact HW |]. split; [exact Hd |].
  exact (script_rotated_to_target _ _ _ _ HA HW Hd).
Defined.

Lemma script_rotated_fraction_witness :
  exists pA pW : vec,
    positionVector example.Auckland = Ok pA /\
    positionVector example.Wellington = Ok pW /\
    -1 < np.dot pA pW < 1 /\
    exists k v : vec,
      example.pole example.Auckland example.Wellington = Ok k /\
      example.rotated example.Auckland example.Wellington (1 / 2) = Ok v /\
      length v = 1 /\
      np.dot k v = 0 /\
      np.dot pA v = cos (1 / 2 * acos (np.dot pA pW)).
Proof.
  destruct script_points as (pA & pW & HA & HW & Hd).
  exists pA, pW. split; [exact HA |]. split; [exact HW |]. split; [exact Hd |].
  exact (script_rotated_fraction _ _ _ _ HA HW Hd (1 / 2)).
Defined.

Lemma script_midpoint_witness :
  exists pA pW : vec,
    positionVector example.Auckland = Ok pA /\
    positionVector example.Wellington = Ok pW /\
    -1 < np.dot pA pW /\
    exists m : vec,
      example.midpoint example.Auckland example.Wellington = Ok m /\
      length m = 1 /\ np.dot m pA = np.dot m pW.
Proof.
  destruct script_points as (pA & pW & HA & HW & Hd).
  exists pA, pW. split; [exact HA |]. split; [exact HW |].
  split; [exact (proj1 Hd) |].
  exact (script_midpoint _ _ _ _ HA HW (proj1 Hd)).
Defined.

Lemma script_small_circle_witness :
  exists pA pW : vec,
    positionVector example.Auckland = Ok pA /\
    positionVector example.Wellington = Ok pW /\
    -1 < np.dot pA pW /\
    exists m v : vec,
      example.midpoint example.Auckland example.Wellington = Ok m /\
      example.rotatedPositionVector example.Auckland example.Wellington 39
      = Ok v /\
      length v = 1 /\ np.dot m v = np.dot m pA.
Proof.
  destruct script_points as (pA & pW & HA & HW & Hd).
  exists pA, pW. split; [exact HA |]. split; [exact HW |].
  split; [exact (proj1 Hd) |].
  exact (script_small_circle _ _ _ _ HA HW (proj1 Hd) 39).
Defined.

Lemma script_half_turn_witness :
  exists pA pW : vec,
    positionVector example.Auckland = Ok pA /\
    positionVector example.Wellington = Ok pW /\
    -1 < np.dot pA pW /\
    example.rotatedPositionVector example.Auckland example.Wellington 0
    = Ok pA /\
    example.rotatedPositionVector example.Auckland example.Wellington example.n
    = Ok pW.
Proof.
  destruct script_points as (pA & pW & HA & HW & Hd).
  exists pA, pW. split; [exact HA |]. split; [exact HW |].
  split; [exact (proj1 Hd) |].
  exact (script_half_turn _ _ _ _ HA HW (proj1 Hd)).
Defined.

(** ** A vector on the z axis whose square underflows *)

Lemma nan_plus (t : PrimFloat.float) :
  PrimFloat.is_nan (PrimFloat.add PrimFloat.nan t) = true.
Proof.
  unfold PrimFloat.is_nan.
  rewrite FloatAxioms.eqb_spec, FloatAxioms.add_spec. reflexivity.
Qed.

(** C8 on float64, at the vector (0, 0, 2^-600): its third component is not
    0, yet its square underflows, so [length] returns 0 and the normalised
    [x] and [y] are 0/0, NaN ([z] is infinite).  The test [x == 0] is False: the branch the
    claim describes is not the one taken.  The last branch is, and the first
    term of its longitude, [np.sign(y) * 180.], is NaN, which makes the sum
    NaN whatever the arc tangent term is; [np.mod] keeps a NaN, so the
    longitude [lonlat] returns is NaN, not 0. *)
Theorem lonlat_underflow :
  PrimFloat.eqb binary64.tiny PrimFloat.zero = false /\
  binary64.length [PrimFloat.zero; PrimFloat.zero; binary64.tiny]
  = PrimFloat.zero /\
  binary64.normalised [PrimFloat.zero; PrimFloat.zero; binary64.tiny]
  = [PrimFloat.nan; PrimFloat.nan; PrimFloat.infinity] /\
  binary64.lonlat_branch [PrimFloat.zero; PrimFloat.zero; binary64.tiny]
  = binary64.otherwise /\
  forall t : PrimFloat.float,
    PrimFloat.is_nan
      (PrimFloat.add
         (binary64.last_branch_first_term
            [PrimFloat.zero; PrimFloat.zero; binary64.tiny]) t) = true.
Proof.
  split; [reflexivity |]. split; [reflexivity |].
  split; [reflexivity |]. split; [reflexivity |].
  intros t.
  replace (binary64.last_branch_first_term
             [PrimFloat.zero; PrimFloat.zero; binary64.tiny])
    with PrimFloat.nan by reflexivity.
  apply nan_plus.
Qed.

(** ** A vector on the z axis, on float64 *)

(** 0 divided by a float64 that is neither 0 nor NaN is a zero. *)
Lemma zero_div_is_zero (L : PrimFloat.float) :
  PrimFloat.eqb L PrimFloat.zero = false ->
  PrimFloat.is_nan L = false ->
  exists s : bool,
    FloatOps.Prim2SF (PrimFloat.div PrimFloat.zero L) = SpecFloat.S754_zero s.
Proof.
  unfold PrimFloat.is_nan.
  rewrite !FloatAxioms.eqb_spec, FloatAxioms.div_spec.
  destruct (FloatOps.Prim2SF L) as [s | s | | s m e]; cbn; intros H0 Hn;
    try discriminate; eexists; reflexivity.
Qed.

(** [np.sign] of a zero of either sign is 0. *)
Lemma sign_of_zero (y : PrimFloat.float) (s : bool) :
  FloatOps.Prim2SF y = SpecFloat.S754_zero s ->
  binary64.sign y = PrimFloat.zero.
Proof.
  intros H. unfold binary64.sign.
  rewrite !FloatAxioms.ltb_spec, FloatAxioms.eqb_spec, H.
  destruct s; reflexivity.
Qed.

(** On float64, for every vector [(0, 0, z)] whose computed length is neither
    0 nor NaN (the square of [z] does not underflow, [z] is not NaN), the
    normalised [x] is a zero, the test [x == 0] holds and the first branch is
    taken; [y] is a zero too, its sign is 0, and the longitude
    [np.sign(y) * 90.] is 0. *)
Theorem lonlat_on_axis_float (z : PrimFloat.float) :
  PrimFloat.eqb (binary64.length [PrimFloat.zero; PrimFloat.zero; z])
    PrimFloat.zero = false ->
  PrimFloat.is_nan (binary64.length [PrimFloat.zero; PrimFloat.zero; z])
  = false ->
  binary64.lonlat_branch [PrimFloat.zero; PrimFloat.zero; z]
  = binary64.x_is_zero /\
  binary64.first_branch_lon [PrimFloat.zero; PrimFloat.zero; z]
  = PrimFloat.zero.
Proof.
  intros H0 Hn.
  destruct (zero_div_is_zero _ H0 Hn) as [s Hs].
  unfold binary64.lonlat_branch, binary64.first_branch_lon, binary64.normalised.
  cbn [map nth]. split.
  - rewrite FloatAxioms.eqb_spec, Hs. destruct s; reflexivity.
  - rewrite (sign_of_zero _ s Hs). reflexivity.
Qed.

Lemma lonlat_on_axis_float_witness :
  PrimFloat.eqb (binary64.length [PrimFloat.zero; PrimFloat.zero; PrimFloat.two])
    PrimFloat.zero = false /\
  PrimFloat.is_nan
    (binary64.length [PrimFloat.zero; PrimFloat.zero; PrimFloat.two]) = false /\
  binary64.lonlat_branch [PrimFloat.zero; PrimFloat.zero; PrimFloat.two]
  = binary64.x_is_zero /\
  binary64.first_branch_lon [PrimFloat.zero; PrimFloat.zero; PrimFloat.two]
  = PrimFloat.zero.
Proof.
  split; [reflexivity |]. split; [reflexivity |].
  apply lonlat_on_axis_float; reflexivity.
Defined.
